(** * exemcl: the evaluation layer of submodular functions

    A shallow embedding of [src/function/SubmodularFunction.h], the abstract
    class [exemcl::SubmodularFunction<HostDataType>], and the properties of
    its default member functions.

    Layout of the development:
    - machine integers ([int], [unsigned int]) and [std::to_string];
    - matrices and vectors (the types of [src/io/DataTypes.h]) with the three
      Eigen operations the class uses;
    - the monad of member functions: a world that only the subclass's code
      touches, and the ways a call can end;
    - loops: the range-for, the [unsigned int] counter, the OpenMP loop;
    - the class: its virtual table, its data member, the body of every
      member function the header defines;
    - the theorems. *)

From Stdlib Require Import ZArith List Ascii String Lia Permutation.
From Stdlib Require Import DecimalString DecimalZ DecimalPos.
From stdpp Require Import base list.
Import ListNotations.

(** ** Machine integers *)

Definition INT_MIN : Z := -2147483648.
Definition INT_MAX : Z := 2147483647.
Definition UINT_MAX : Z := 4294967295.

(** The values of an [int] argument. *)
Definition is_int (z : Z) : Prop := (INT_MIN <= z <= INT_MAX)%Z.

(** Conversion of an [int] to [unsigned int]: reduction modulo 2^32. *)
Definition to_unsigned (z : Z) : Z := (z mod 2 ^ 32)%Z.

(** Conversion of an [unsigned int] to [int] (the argument of [num_threads]). *)
Definition to_int (u : Z) : Z := (if u <=? INT_MAX then u else u - 2 ^ 32)%Z.

(** [i++] on an [unsigned int] counter. *)
Definition uint_incr (i : Z) : Z := ((i + 1) mod 2 ^ 32)%Z.

(** [std::to_string] on an integer: its decimal representation. *)
Definition to_string (z : Z) : string := NilZero.string_of_int (Z.to_int z).

(** ** Exceptions and the ways a call ends *)

(** The header throws [std::runtime_error]; a subclass may throw anything,
    which [thrown] stands for, told apart by a tag. *)
Inductive exception : Type :=
  | runtime_error (what_arg : string)
  | thrown (tag : nat).

(** A call returns a value, leaves by an exception, breaks the contract of a
    library operation (an Eigen assertion, an index outside a [std::vector]:
    no behaviour is defined), never leaves a loop, or ends the program
    through [std::terminate]. *)
Inductive outcome (A : Type) : Type :=
  | Returns (a : A)
  | Throws (e : exception)
  | Undefined
  | Loops
  | Terminates.
Arguments Returns {A} a.
Arguments Throws {A} e.
Arguments Undefined {A}.
Arguments Loops {A}.
Arguments Terminates {A}.

(** The operands of a built-in binary operator are evaluated in an order the
    compiler chooses. *)
Inductive operand_order : Type := left_operand_first | right_operand_first.

(** ** Matrices and vectors *)

Section DataTypes.
Context {HostDataType : Type}.

(** Modelled from the spec: [src/io/DataTypes.h], which declares
    [MatrixX<HostDataType>], is not part of the sources. The spec's
    Collection is an ordered sequence of elements that share a dimension:
    a matrix is its number of columns and the sequence of its rows. The
    number of columns is kept apart because a matrix without rows has one
    too. *)
Record MatrixX : Type := mkMatrixX {
  cols : nat;
  coeffs : list (list HostDataType)
}.

Definition rows (S : MatrixX) : nat := length (coeffs S).

(** Modelled from the spec: [VectorXRef<HostDataType>], from the same
    absent header; the spec's Element, a vector of scalars. *)
Definition VectorXRef : Type := list HostDataType.

Definition size (elem : VectorXRef) : nat := length elem.

(** [elem.transpose()]: the vector as one row. *)
Definition transpose (elem : VectorXRef) : list HostDataType := elem.

(** What a coefficient holds before it is first written. *)
Variable indeterminate : nat -> nat -> HostDataType.

(** [S.conservativeResize(new_rows, Eigen::NoChange_t())]: the rows that
    fit are kept, rows added at the end hold indeterminate coefficients. *)
Definition conservativeResize (S : MatrixX) (new_rows : nat) : MatrixX :=
  {| cols := cols S;
     coeffs := take new_rows (coeffs S)
               ++ map (fun i => map (indeterminate i) (seq 0 (cols S)))
                      (seq (rows S) (new_rows - rows S)) |}.

(** [S.row(i) << r]: the comma initialiser writes the coefficients of [r]
    into row [i]. Eigen requires row [i] to exist and [r] to fill it
    exactly; [None] stands for a broken requirement. *)
Definition row_comma_init (S : MatrixX) (i : nat) (r : list HostDataType)
  : option MatrixX :=
  if (i <? rows S) && (length r =? cols S)
  then Some {| cols := cols S; coeffs := <[i := r]> (coeffs S) |}
  else None.

(** The spec's "S with e appended as a new last row". *)
Definition append_row (S : MatrixX) (e : VectorXRef) : MatrixX :=
  {| cols := cols S; coeffs := coeffs S ++ [e] |}.

End DataTypes.
Arguments MatrixX HostDataType : clear implicits.
Arguments VectorXRef HostDataType : clear implicits.

(** ** The monad of member functions *)

Section Monad.
(** Everything a subclass's code may read or change: its caches, its
    counters, the world at large. The header's own code never touches it. *)
Context {World : Type}.

Definition M (A : Type) : Type := World -> outcome A * World.

#[global] Instance M_ret : MRet M := fun A a w => (Returns a, w).

#[global] Instance M_bind : MBind M := fun A B k m w =>
  match m w with
  | (Returns a, w') => k a w'
  | (Throws e, w') => (Throws e, w')
  | (Undefined, w') => (Undefined, w')
  | (Loops, w') => (Loops, w')
  | (Terminates, w') => (Terminates, w')
  end.

(** [throw e]. *)
Definition throw {A : Type} (e : exception) : M A := fun w => (Throws e, w).

Definition undefined {A : Type} : M A := fun w => (Undefined, w).

Definition loops {A : Type} : M A := fun w => (Loops, w).

(** A library operation whose requirement may be broken. *)
Definition required {A : Type} (o : option A) : M A :=
  match o with
  | Some a => mret a
  | None => undefined
  end.

(** [v[i]] read from a [std::vector]: no bounds check. *)
Definition at_index {A : Type} (v : list A) (i : nat) : M A :=
  required (v !! i).

(** [v[i] = x] on a [std::vector]: no bounds check. *)
Definition store_at {A : Type} (v : list A) (i : nat) (x : A) : M (list A) :=
  if i <? length v then mret (<[i := x]> v) else undefined.

(** *** Loops *)

(** A loop that visits the items of [l] in order, a range-for, or a counter
    of the width of [size_t] running over [0 .. size()-1], threads the
    variables [a] it assigns through [body]. *)
Fixpoint for_each {I A : Type} (l : list I) (body : I -> A -> M A) (a : A)
  : M A :=
  match l with
  | [] => mret a
  | i :: l' => a' ← body i a; for_each l' body a'
  end.

(** [for (unsigned int i = start; i < n; i++) body], where [n] is a
    [size_t]: the comparison is made at the width of [n], the increment at
    32 bits. [fuel] bounds the iterations the model follows; the bodies
    below give it [n], enough for every loop that ends before its counter
    wraps around. *)
Fixpoint for_uint {A : Type} (fuel : nat) (i n : Z) (body : Z -> A -> M A)
  (a : A) : M A :=
  if (i <? n)%Z then
    match fuel with
    | O => loops
    | Datatypes.S fuel' =>
        a' ← body i a; for_uint fuel' (uint_incr i) n body a'
    end
  else mret a.

(** The structured block of an OpenMP construct: an exception thrown inside
    it has to be caught inside it. The header catches none, so an exception
    that reaches the end of the block has nowhere to go and the program ends
    in [std::terminate], whatever the number of threads. *)
Definition must_not_throw {A : Type} (block : M A) : M A :=
  fun w =>
    match block w with
    | (Throws _, w') => (Terminates, w')
    | r => r
    end.

End Monad.
Arguments M World A : clear implicits.

(** ** The class SubmodularFunction *)

(** The data member of the class (line 228), an [unsigned int]. *)
Record SubmodularFunction : Type := mkSubmodularFunction {
  _workerCount : Z
}.

Section Class.
(** The template parameter, with its subtraction and the value [resize]
    gives to new items of a [std::vector<HostDataType>]. *)
Context {HostDataType : Type}.
Variable minus : HostDataType -> HostDataType -> HostDataType.
Variable zero : HostDataType.
Variable indeterminate : nat -> nat -> HostDataType.

Context {World : Type}.

(** The platform: what [std::thread::hardware_concurrency()] reports, the
    operand the compiler evaluates first, and the order in which the OpenMP
    runtime, given a number of threads and of iterations, happens to run the
    iterations of a parallel loop. *)
Variable hardware_concurrency : Z.
Variable order : operand_order.
Variable omp_schedule : World -> Z -> nat -> list nat.

#[local] Abbreviation MatrixX := (MatrixX HostDataType).
#[local] Abbreviation VectorXRef := (VectorXRef HostDataType).
#[local] Abbreviation M := (M World).

(** The virtual member functions. A call through [this] runs the entry of
    the object's class, whichever class defined it. The five overloads of
    [operator()] are named after their parameters: [S] is the spec's
    evaluate, [S_elem] its marginalGain, [S_multi] its evaluateBatch,
    [S_multi_elem] and [S_elems] its two marginalGainBatch; each comes in a
    const and a non-const version. *)
Record vtable : Type := mkVtable {
  call_S_const : SubmodularFunction -> MatrixX -> M HostDataType;
  call_S : SubmodularFunction -> MatrixX -> M HostDataType;
  call_S_elem_const :
    SubmodularFunction -> MatrixX -> VectorXRef -> M HostDataType;
  call_S_elem :
    SubmodularFunction -> MatrixX -> VectorXRef -> M HostDataType;
  call_S_multi_const :
    SubmodularFunction -> list MatrixX -> M (list HostDataType);
  call_S_multi :
    SubmodularFunction -> list MatrixX -> M (list HostDataType);
  call_S_multi_elem_const :
    SubmodularFunction -> list MatrixX -> VectorXRef -> M (list HostDataType);
  call_S_multi_elem :
    SubmodularFunction -> list MatrixX -> VectorXRef -> M (list HostDataType);
  call_S_elems_const :
    SubmodularFunction -> MatrixX -> list VectorXRef -> M (list HostDataType);
  call_S_elems :
    SubmodularFunction -> MatrixX -> list VectorXRef -> M (list HostDataType);
  call_getWorkerCount : SubmodularFunction -> Z;
  call_setWorkerCount : Z -> SubmodularFunction -> SubmodularFunction
}.

(** *** Worker count (lines 202-220) *)

Definition getWorkerCount (this : SubmodularFunction) : Z :=
  _workerCount this.

Definition setWorkerCount (workerCount : Z) (this : SubmodularFunction)
  : SubmodularFunction :=
  if (workerCount >=? 1)%Z then
    {| _workerCount := to_unsigned workerCount |}
  else
    let suggestedThreads := hardware_concurrency in
    {| _workerCount :=
         if (suggestedThreads >? 0)%Z then suggestedThreads else 1%Z |}.

(** The constructor (lines 27-29): the member starts from its initialiser,
    [1]; the argument defaults to [-1]; inside a constructor the call runs
    this class's own [setWorkerCount]. *)
Definition construct (workerCount : option Z) : SubmodularFunction :=
  let workerCount := default (-1)%Z workerCount in
  setWorkerCount workerCount {| _workerCount := 1 |}.

(** The argument of the [num_threads] clause. *)
Definition num_threads (this : SubmodularFunction) : Z :=
  to_int (_workerCount this).

(** *** Marginal gain of one element (lines 53-77) *)

(** [a - b] on the results of two calls. *)
Definition minus_calls (a b : M HostDataType) : M HostDataType :=
  match order with
  | left_operand_first => x ← a; y ← b; mret (minus x y)
  | right_operand_first => y ← b; x ← a; mret (minus x y)
  end.

(** The two operands [a - b] in the order in which they are evaluated. *)
Definition operands_in_order {X : Type} (a b : X) : X * X :=
  match order with
  | left_operand_first => (a, b)
  | right_operand_first => (b, a)
  end.

(** The message of the exception of lines 65-66. *)
Definition mismatch_message (S_cols elem_size : Z) : string :=
  String.append
    "SubmodularFunction::operator(): The number of columns in matrix `S` and the number of elements in vector `elem` do not match ("
    (String.append (to_string S_cols)
       (String.append " vs. "
          (String.append (to_string elem_size) ")."))).

(** [operator()(S, elem) const], the spec's marginalGain. *)
Definition op_S_elem_const (cls : vtable) (this : SubmodularFunction)
  (S : MatrixX) (elem : VectorXRef) : M HostDataType :=
  if cols S =? size elem then
    let S_elem := S in
    let S_elem := conservativeResize indeterminate S_elem (rows S + 1) in
    S_elem ← required (row_comma_init S_elem (rows S) (transpose elem));
    let marginalGain :=
      minus_calls (call_S_const cls this S_elem) (call_S_const cls this S) in
    marginalGain
  else
    throw (runtime_error
             (mismatch_message (Z.of_nat (cols S)) (Z.of_nat (size elem)))).

(** [operator()(S, elem)]: the call through [this] cast to a pointer to
    const is virtual, it reaches the const overload of the object's class. *)
Definition op_S_elem (cls : vtable) (this : SubmodularFunction)
  (S : MatrixX) (elem : VectorXRef) : M HostDataType :=
  call_S_elem_const cls this S elem.

(** *** Several sets (lines 85-107) *)

(** [#pragma omp parallel for num_threads(n)] over the [count] iterations of
    the loop it annotates, in a build with OpenMP: the iterations run in the
    order the runtime picks, each one whole; the primitive is the
    subclass's to keep safe under concurrent calls. The loop is the
    structured block of the construct: an exception that leaves an
    iteration does not leave the loop, it ends the program. *)
Definition omp_parallel_for {A : Type} (n : Z) (count : nat)
  (body : nat -> A -> M A) (a : A) : M A :=
  fun w => must_not_throw (for_each (omp_schedule w n count) body a) w.

(** [operator()(S_multi) const], the spec's evaluateBatch. *)
Definition op_S_multi_const (cls : vtable) (this : SubmodularFunction)
  (S_multi : list MatrixX) : M (list HostDataType) :=
  let utilities := replicate (length S_multi) zero in
  utilities ← omp_parallel_for (num_threads this) (length S_multi)
    (fun i utilities =>
      S_i ← at_index S_multi i;
      u ← call_S_const cls this S_i;
      store_at utilities i u) utilities;
  mret utilities.

Definition op_S_multi (cls : vtable) (this : SubmodularFunction)
  (S_multi : list MatrixX) : M (list HostDataType) :=
  call_S_multi_const cls this S_multi.

(** *** Several sets, one element (lines 116-150) *)

(** [operator()(S_multi, elem) const], the spec's marginalGainBatch of
    several sets and one element. [back] is the copy [push_back] has just
    added. *)
Definition op_S_multi_elem_const (cls : vtable) (this : SubmodularFunction)
  (S_multi : list MatrixX) (elem : VectorXRef) : M (list HostDataType) :=
  let S_multi_elem := [] in
  S_multi_elem ← for_each S_multi (fun S_elem S_multi_elem =>
      let back := S_elem in
      let back := conservativeResize indeterminate back (rows S_elem + 1) in
      back ← required (row_comma_init back (rows S_elem) (transpose elem));
      mret (S_multi_elem ++ [back])) S_multi_elem;
  utilityS_multi ← call_S_multi_const cls this S_multi;
  utilityS_multi_elem ← call_S_multi_const cls this S_multi_elem;
  let marginalGains := replicate (length S_multi) zero in
  marginalGains ← for_each (seq 0 (length utilityS_multi))
    (fun i marginalGains =>
      a ← at_index utilityS_multi_elem i;
      b ← at_index utilityS_multi i;
      store_at marginalGains i (minus a b)) marginalGains;
  mret marginalGains.

Definition op_S_multi_elem (cls : vtable) (this : SubmodularFunction)
  (S_multi : list MatrixX) (elem : VectorXRef) : M (list HostDataType) :=
  call_S_multi_elem_const cls this S_multi elem.

(** *** One set, several elements (lines 159-196) *)

(** [operator()(S, elems) const], the spec's marginalGainBatch of one set
    and several elements. Its two loops count with an [unsigned int]. *)
Definition op_S_elems_const (cls : vtable) (this : SubmodularFunction)
  (S : MatrixX) (elems : list VectorXRef) : M (list HostDataType) :=
  let S_elems := replicate (length elems) S in
  S_elems ← for_uint (length elems) 0 (Z.of_nat (length elems))
    (fun i S_elems =>
      elem ← at_index elems (Z.to_nat i);
      S_i ← at_index S_elems (Z.to_nat i);
      let S_i := conservativeResize indeterminate S_i (rows S + 1) in
      S_i ← required (row_comma_init S_i (rows S) (transpose elem));
      store_at S_elems (Z.to_nat i) S_i) S_elems;
  S_funcValue ← call_S_const cls this S;
  S_elems_funcValue ← call_S_multi_const cls this S_elems;
  let gains := replicate (length elems) zero in
  gains ← for_uint (length elems) 0 (Z.of_nat (length elems))
    (fun i gains =>
      v ← at_index S_elems_funcValue (Z.to_nat i);
      store_at gains (Z.to_nat i) (minus v S_funcValue)) gains;
  mret gains.

Definition op_S_elems (cls : vtable) (this : SubmodularFunction)
  (S : MatrixX) (elems : list VectorXRef) : M (list HostDataType) :=
  call_S_elems_const cls this S elems.

(** *** Classes built on the header *)

(** The table whose entries are the header's bodies, each dispatching on
    [cls]; the two pure virtual entries (lines 37 and 45) are those of
    [cls]. *)
Definition defaults (cls : vtable) : vtable :=
  {| call_S_const := call_S_const cls;
     call_S := call_S cls;
     call_S_elem_const := op_S_elem_const cls;
     call_S_elem := op_S_elem cls;
     call_S_multi_const := op_S_multi_const cls;
     call_S_multi := op_S_multi cls;
     call_S_multi_elem_const := op_S_multi_elem_const cls;
     call_S_multi_elem := op_S_multi_elem cls;
     call_S_elems_const := op_S_elems_const cls;
     call_S_elems := op_S_elems cls;
     call_getWorkerCount := getWorkerCount;
     call_setWorkerCount := setWorkerCount |}.

(** The two pure virtual functions alone; the other entries are never
    reached. *)
Definition pure_virtuals
  (evaluate_const evaluate : SubmodularFunction -> MatrixX -> M HostDataType)
  : vtable :=
  {| call_S_const := evaluate_const;
     call_S := evaluate;
     call_S_elem_const := fun _ _ _ => undefined;
     call_S_elem := fun _ _ _ => undefined;
     call_S_multi_const := fun _ _ => undefined;
     call_S_multi := fun _ _ => undefined;
     call_S_multi_elem_const := fun _ _ _ => undefined;
     call_S_multi_elem := fun _ _ _ => undefined;
     call_S_elems_const := fun _ _ _ => undefined;
     call_S_elems := fun _ _ _ => undefined;
     call_getWorkerCount := getWorkerCount;
     call_setWorkerCount := setWorkerCount |}.

(** A concrete subclass that overrides the two pure virtual functions and
    nothing else. The longest chain of calls among the header's bodies has
    three links (non-const batch gain, const batch gain, batch evaluation,
    evaluation), so three rounds of [defaults] reach the table in which
    every inherited body dispatches on the finished table. *)
Definition Derived
  (evaluate_const evaluate : SubmodularFunction -> MatrixX -> M HostDataType)
  : vtable :=
  defaults (defaults (defaults (pure_virtuals evaluate_const evaluate))).

(** [cls] does not override the overload in question: calling it runs the
    header's body. *)
Definition inherits_S_elem_const (cls : vtable) : Prop :=
  forall this S elem w,
    call_S_elem_const cls this S elem w = op_S_elem_const cls this S elem w.

Definition inherits_S_multi_const (cls : vtable) : Prop :=
  forall this S_multi w,
    call_S_multi_const cls this S_multi w = op_S_multi_const cls this S_multi w.

Definition inherits_S_multi_elem_const (cls : vtable) : Prop :=
  forall this S_multi elem w,
    call_S_multi_elem_const cls this S_multi elem w
    = op_S_multi_elem_const cls this S_multi elem w.

Definition inherits_S_elems_const (cls : vtable) : Prop :=
  forall this S elems w,
    call_S_elems_const cls this S elems w = op_S_elems_const cls this S elems w.

(** *** Contracts the theorems refer to *)

(** The postcondition the spec puts on the evaluation primitive: the value
    it returns is a function [f] of the set alone, whatever it does to the
    world. *)
Definition computes (cls : vtable) (this : SubmodularFunction)
  (f : MatrixX -> HostDataType) : Prop :=
  forall S w, fst (call_S_const cls this S w) = Returns (f S).

(** The OpenMP runtime runs every iteration of a parallel loop once, in some
    order. *)
Definition runs_each_iteration_once : Prop :=
  forall w n count, Permutation (omp_schedule w n count) (seq 0 count).

(** The body of the loop of lines 92-93. *)
Definition utilities_body (cls : vtable) (this : SubmodularFunction)
  (S_multi : list MatrixX) (i : nat) (utilities : list HostDataType)
  : M (list HostDataType) :=
  S_i ← at_index S_multi i;
  u ← call_S_const cls this S_i;
  store_at utilities i u.

(** The objects a program can hold: built by the constructor, then updated
    by [setWorkerCount], with [int] arguments. *)
Inductive constructed : SubmodularFunction -> Prop :=
  | constructed_default : constructed (construct None)
  | constructed_with workerCount :
      is_int workerCount -> constructed (construct (Some workerCount))
  | constructed_set workerCount this :
      is_int workerCount -> constructed this ->
      constructed (setWorkerCount workerCount this).

End Class.
Arguments vtable : clear implicits.

(** ** A fake that counts calls *)

Section Counting.
Context {HostDataType : Type}.

#[local] Abbreviation MatrixX := (MatrixX HostDataType).

(** The calls a test double records: one evaluation of a set, or one batch
    evaluation of several sets. *)
Inductive call : Type :=
  | evaluated (S : MatrixX)
  | evaluated_batch (S_multi : list MatrixX).

(** The world of the fake is its record of calls, oldest first. *)
#[local] Abbreviation vtable := (vtable HostDataType (list call)).

(** An evaluation primitive that records its call and returns [f]. *)
Definition counted_evaluation (f : MatrixX -> HostDataType)
  : SubmodularFunction -> MatrixX -> M (list call) HostDataType :=
  fun _ S calls => (Returns (f S), calls ++ [evaluated S]).

(** A batch evaluation that records its call and returns the values of [f],
    without going through the primitive. *)
Definition counted_batch (f : MatrixX -> HostDataType)
  : SubmodularFunction -> list MatrixX -> M (list call) (list HostDataType) :=
  fun _ S_multi calls => (Returns (map f S_multi), calls ++ [evaluated_batch S_multi]).

(** [cls] evaluates through the two recording functions. *)
Definition records_evaluations (cls : vtable) (f : MatrixX -> HostDataType)
  : Prop :=
  forall this S calls,
    call_S_const cls this S calls = counted_evaluation f this S calls.

Definition records_batches (cls : vtable) (f : MatrixX -> HostDataType)
  : Prop :=
  forall this S_multi calls,
    call_S_multi_const cls this S_multi calls
    = counted_batch f this S_multi calls.

(** [cls] with its batch evaluation replaced. *)
Definition override_S_multi
  (batch : SubmodularFunction -> list MatrixX -> M (list call) (list HostDataType))
  (cls : vtable) : vtable :=
  {| call_S_const := call_S_const cls;
     call_S := call_S cls;
     call_S_elem_const := call_S_elem_const cls;
     call_S_elem := call_S_elem cls;
     call_S_multi_const := batch;
     call_S_multi := batch;
     call_S_multi_elem_const := call_S_multi_elem_const cls;
     call_S_multi_elem := call_S_multi_elem cls;
     call_S_elems_const := call_S_elems_const cls;
     call_S_elems := call_S_elems cls;
     call_getWorkerCount := call_getWorkerCount cls;
     call_setWorkerCount := call_setWorkerCount cls |}.

End Counting.
Arguments call : clear implicits.

(** ** A reference function and a platform, for concrete runs *)

(** The spec's reference function: the sum of all entries. *)
Definition sum_of_entries (S : MatrixX Z) : Z :=
  fold_right Z.add 0%Z (concat (coeffs S)).

(** A platform with four hardware threads, whose OpenMP runtime runs the
    iterations in order on one thread and last iteration first on more. *)
Definition ref_hardware_concurrency : Z := 4.

Definition ref_schedule {World : Type} : World -> Z -> nat -> list nat :=
  fun _ n count => if (n <=? 1)%Z then seq 0 count else rev (seq 0 count).

Definition ref_indeterminate : nat -> nat -> Z := fun _ _ => 42%Z.

(** A subclass over scalars in [Z] whose primitive computes the sum of the
    entries and counts its calls in the world. *)
Definition ref_evaluate : SubmodularFunction -> MatrixX Z -> M nat Z :=
  fun _ S calls => (Returns (sum_of_entries S), calls + 1).

Definition ref_class (order : operand_order) : vtable Z nat :=
  Derived Z.sub 0%Z ref_indeterminate ref_hardware_concurrency order
    ref_schedule ref_evaluate ref_evaluate.

(** A subclass whose primitive gives up on sets of more than two rows. *)
Definition ref_fragile_evaluate : SubmodularFunction -> MatrixX Z -> M nat Z :=
  fun _ S calls =>
    if 2 <? rows S then (Throws (thrown 7), calls + 1)
    else (Returns (sum_of_entries S), calls + 1).

Definition ref_fragile_class (order : operand_order) : vtable Z nat :=
  Derived Z.sub 0%Z ref_indeterminate ref_hardware_concurrency order
    ref_schedule ref_fragile_evaluate ref_fragile_evaluate.

(** The fake of the spec's tests: it records evaluations and batch
    evaluations of the sum of the entries. *)
Definition ref_counting_class : vtable Z (list (call Z)) :=
  override_S_multi (counted_batch sum_of_entries)
    (defaults Z.sub 0%Z ref_indeterminate ref_hardware_concurrency
       left_operand_first ref_schedule
       (override_S_multi (counted_batch sum_of_entries)
          (pure_virtuals ref_hardware_concurrency
             (counted_evaluation sum_of_entries)
             (counted_evaluation sum_of_entries)))).

(** A subclass that keeps the header's batch evaluation and records the
    evaluations of its primitive. *)
Definition ref_recording_class : vtable Z (list (call Z)) :=
  Derived Z.sub 0%Z ref_indeterminate ref_hardware_concurrency
    left_operand_first ref_schedule
    (counted_evaluation sum_of_entries) (counted_evaluation sum_of_entries).

(** The spec's scenario: S = {[1,0], [0,1]}, e = [1,1]. *)
Definition ref_S : MatrixX Z := {| cols := 2; coeffs := [[1; 0]; [0; 1]]%Z |}.
Definition ref_e : VectorXRef Z := [1; 1]%Z.

(** A set of width 3 and an element of width 2. *)
Definition ref_S3 : MatrixX Z := {| cols := 3; coeffs := [[1; 2; 3]]%Z |}.
Definition ref_e2 : VectorXRef Z := [4; 5]%Z.

(** ** The loop bodies of the batch marginal gain of one set *)

Section LoopBodies.
Context {HostDataType : Type}.
Variable minus : HostDataType -> HostDataType -> HostDataType.
Variable indeterminate : nat -> nat -> HostDataType.
Context {World : Type}.

#[local] Abbreviation MatrixX := (MatrixX HostDataType).
#[local] Abbreviation VectorXRef := (VectorXRef HostDataType).

(** The body of the loop of lines 164-168. *)
Definition S_elems_body (S : MatrixX) (elems : list VectorXRef) (i : Z)
  (S_elems : list MatrixX) : M World (list MatrixX) :=
  elem ← at_index elems (Z.to_nat i);
  S_i ← at_index S_elems (Z.to_nat i);
  let S_i := conservativeResize indeterminate S_i (rows S + 1) in
  S_i ← required (row_comma_init S_i (rows S) (transpose elem));
  store_at S_elems (Z.to_nat i) S_i.

(** The body of the loop of lines 181-182. *)
Definition gains_body (S_funcValue : HostDataType)
  (S_elems_funcValue : list HostDataType) (i : Z) (gains : list HostDataType)
  : M World (list HostDataType) :=
  v ← at_index S_elems_funcValue (Z.to_nat i);
  store_at gains (Z.to_nat i) (minus v S_funcValue).

(** The body of the loop of lines 135-136. *)
Definition marginalGains_body
  (utilityS_multi utilityS_multi_elem : list HostDataType) (i : nat)
  (marginalGains : list HostDataType) : M World (list HostDataType) :=
  a ← at_index utilityS_multi_elem i;
  b ← at_index utilityS_multi i;
  store_at marginalGains i (minus a b).

(** The sets of the loop of lines 164-168, before and after their row was
    written: as wide as [S], with the rows of [S] or one more. *)
Definition being_augmented (S : MatrixX) (n : nat) (S_elems : list MatrixX)
  : Prop :=
  length S_elems = n
  /\ Forall (fun S_i => cols S_i = cols S
                        /\ rows S <= rows S_i <= rows S + 1) S_elems.

End LoopBodies.

(** A platform like the reference one, for a set without columns and
    elements without coefficients: the smallest input of a given length. *)
Definition ref_S0 : MatrixX Z := {| cols := 0; coeffs := [] |}.

(** A class whose batch evaluation, besides recording its call, returns the
    utility of the first set only. *)
Definition ref_short_batch_class : vtable Z (list (call Z)) :=
  override_S_multi
    (fun _ S_multi calls =>
       (Returns (take 1 (map sum_of_entries S_multi)),
        calls ++ [evaluated_batch S_multi]))
    ref_counting_class.

(** A platform that reports more hardware threads than an [int] holds. *)
Definition ref_many_threads : Z := 3000000000.

(** One candidate more than an [unsigned int] counts: 4294967296 copies of
    the element of the scenario. *)
Definition ref_too_many_elems : list (VectorXRef Z) :=
  replicate (Z.to_nat 4294967296) ref_e.

(** A subclass whose primitive reads outside its input on sets of more than
    two rows. *)
Definition ref_unsafe_evaluate : SubmodularFunction -> MatrixX Z -> M nat Z :=
  fun _ S calls =>
    if 2 <? rows S then (Undefined, calls + 1)
    else (Returns (sum_of_entries S), calls + 1).

Definition ref_unsafe_class : vtable Z nat :=
  Derived Z.sub 0%Z ref_indeterminate ref_hardware_concurrency
    left_operand_first ref_schedule ref_unsafe_evaluate ref_unsafe_evaluate.

(** * Properties *)

(** ** Decimal strings *)

Section Strings.

Lemma append_inv_head (p a b : string) :
  String.append p a = String.append p b -> a = b.
Proof.
  induction p as [|c p IH]; cbn; intros H; [exact H|].
  injection H as H. auto.
Qed.

(** Two strings that agree up to and after the first occurrence of [c]. *)
Lemma append_split (c : Ascii.ascii) (s1 s2 r1 r2 : string) :
  ~ In c (list_ascii_of_string s1) ->
  ~ In c (list_ascii_of_string s2) ->
  String.append s1 (String c r1) = String.append s2 (String c r2) ->
  s1 = s2 /\ r1 = r2.
Proof.
  revert s2. induction s1 as [|a s1 IH]; intros [|b s2] H1 H2 H; cbn in *.
  - injection H as H. auto.
  - injection H as Hc H. exfalso. apply H2. left. auto.
  - injection H as Hc H. exfalso. apply H1. left. auto.
  - injection H as Hab H. subst b.
    destruct (IH s2) as [-> ->]; auto.
Qed.

Lemma digits_of_uint (c : Ascii.ascii) (d : Decimal.uint) :
  In c (list_ascii_of_string (NilEmpty.string_of_uint d)) ->
  In c (list_ascii_of_string "0123456789").
Proof.
  induction d; cbn; intros H; try contradiction;
    (destruct H as [<-|H]; [cbn; tauto | exact (IHd H)]).
Qed.

Lemma chars_of_to_string (c : Ascii.ascii) (z : Z) :
  In c (list_ascii_of_string (to_string z)) ->
  In c (list_ascii_of_string "-0123456789").
Proof.
  unfold to_string. intros H.
  assert (Huint : forall d, In c (list_ascii_of_string (NilZero.string_of_uint d)) ->
                            In c (list_ascii_of_string "0123456789")).
  { intros d Hd. destruct d; try exact (digits_of_uint c _ Hd).
    cbn in Hd. destruct Hd as [<-|[]]. cbn. tauto. }
  destruct (Z.to_int z) as [d|d]; cbn [NilZero.string_of_int] in H.
  - right. exact (Huint d H).
  - cbn [list_ascii_of_string] in H. destruct H as [<-|H].
    + left. reflexivity.
    + right. exact (Huint d H).
Qed.

Lemma to_string_inj (z z' : Z) : to_string z = to_string z' -> z = z'.
Proof.
  unfold to_string. intros H. apply DecimalZ.to_int_inj.
  assert (Hisi : forall x, NilZero.int_of_string
                             (NilZero.string_of_int (Z.to_int x))
                           = Some (Z.to_int x)).
  { intros x. apply NilZero.isi; destruct x; cbn; try discriminate;
      intros Hnil; injection Hnil as Hnil;
      exact (DecimalPos.Unsigned.to_uint_nonnil _ Hnil). }
  pose proof (Hisi z) as Hz. rewrite H, Hisi in Hz. congruence.
Qed.

End Strings.

(** ** Matrices *)

Section DataTypesFacts.
Context {HostDataType : Type}.
Variable indeterminate : nat -> nat -> HostDataType.

#[local] Abbreviation MatrixX := (MatrixX HostDataType).

(** Growing by one row and writing that row appends the row, whatever the
    new row held in between; a row of another width breaks Eigen's
    requirement. *)
Lemma resize_then_row (S : MatrixX) (r : list HostDataType) :
  row_comma_init (conservativeResize indeterminate S (rows S + 1)) (rows S) r
  = if length r =? cols S then Some (append_row S r) else None.
Proof.
  unfold row_comma_init, conservativeResize, append_row, rows; cbn [cols coeffs].
  rewrite firstn_all2 by lia.
  replace (length (coeffs S) + 1 - length (coeffs S)) with 1 by lia.
  cbn [seq map]. rewrite length_app; cbn [length].
  replace (length (coeffs S) <? length (coeffs S) + 1) with true
    by (symmetry; apply Nat.ltb_lt; lia).
  cbn [andb]. destruct (length r =? cols S); [|reflexivity].
  do 2 f_equal.
  rewrite insert_app_r_alt by lia. rewrite Nat.sub_diag. reflexivity.
Qed.

Lemma rows_append_row (S : MatrixX) (e : VectorXRef HostDataType) :
  rows (append_row S e) = Datatypes.S (rows S).
Proof. unfold rows, append_row; cbn. rewrite length_app; cbn; lia. Qed.

Lemma append_row_neq (S : MatrixX) (e : VectorXRef HostDataType) :
  append_row S e <> S.
Proof.
  intros H. apply (f_equal rows) in H. rewrite rows_append_row in H. lia.
Qed.

End DataTypesFacts.

(** ** The monad and its loops *)

Section MonadFacts.
Context {World : Type}.

#[local] Abbreviation M := (M World).

Lemma bind_returns {A B : Type} (m : M A) (k : A -> M B) w a w' :
  m w = (Returns a, w') -> (x ← m; k x) w = k a w'.
Proof. intros H. unfold mbind, M_bind. rewrite H. reflexivity. Qed.

Lemma bind_throws {A B : Type} (m : M A) (k : A -> M B) w e w' :
  m w = (Throws e, w') -> (x ← m; k x) w = (Throws e, w').
Proof. intros H. unfold mbind, M_bind. rewrite H. reflexivity. Qed.

Lemma bind_terminates {A B : Type} (m : M A) (k : A -> M B) w w' :
  m w = (Terminates, w') -> (x ← m; k x) w = (Terminates, w').
Proof. intros H. unfold mbind, M_bind. rewrite H. reflexivity. Qed.

Lemma bind_ext {A B : Type} (m : M A) (k k' : A -> M B) w :
  (forall a w', k a w' = k' a w') -> (x ← m; k x) w = (x ← m; k' x) w.
Proof.
  intros H. unfold mbind, M_bind. destruct (m w) as [[a|e| | |] w']; auto.
Qed.

Lemma at_index_run {A : Type} (v : list A) (i : nat) (x : A) (w : World) :
  v !! i = Some x -> at_index v i w = (Returns x, w).
Proof. intros H. unfold at_index. rewrite H. reflexivity. Qed.

Lemma store_at_run {A : Type} (v : list A) (i : nat) (x : A) (w : World) :
  i < length v -> store_at v i x w = (Returns (<[i := x]> v), w).
Proof.
  intros H. unfold store_at.
  destruct (Nat.ltb_spec i (length v)); [reflexivity | lia].
Qed.

Lemma for_each_app {I A : Type} (l1 l2 : list I) (body : I -> A -> M A) a w :
  for_each (l1 ++ l2) body a w
  = (a' ← for_each l1 body a; for_each l2 body a') w.
Proof.
  revert a w. induction l1 as [|i l1 IH]; intros a w; cbn [for_each app].
  - reflexivity.
  - unfold mbind, M_bind in *.
    destruct (body i a w) as [[a'|e| | |] w']; auto.
Qed.

(** A loop whose body neither fails nor touches the world, followed along an
    invariant indexed by the number of iterations done. *)
Lemma for_each_invariant {I A : Type} (P : nat -> A -> Prop) (l : list I)
  (body : I -> A -> M A) (w : World) :
  (forall k i a, l !! k = Some i -> P k a ->
     exists a', body i a w = (Returns a', w) /\ P (Datatypes.S k) a') ->
  forall a, P 0 a ->
    exists a', for_each l body a w = (Returns a', w) /\ P (length l) a'.
Proof.
  revert P. induction l as [|i l IH]; intros P Hbody a Ha.
  - exists a. split; [reflexivity | exact Ha].
  - destruct (Hbody 0 i a eq_refl Ha) as (a1 & Hrun & Ha1).
    destruct (IH (fun k => P (Datatypes.S k))) with (a := a1)
      as (a' & Hrest & Ha'); [|exact Ha1|].
    + intros k j b Hk Hb. apply (Hbody (Datatypes.S k) j b Hk Hb).
    + exists a'. split; [|exact Ha'].
      cbn [for_each]. rewrite (bind_returns _ _ _ _ _ Hrun). exact Hrest.
Qed.

(** While the number of iterations fits the counter, the [unsigned int] loop
    visits [i], [i+1], ..., [n-1] and ends. *)
Lemma for_uint_for_each {A : Type} (body : Z -> A -> M A) (n : nat) :
  (Z.of_nat n <= UINT_MAX)%Z ->
  forall fuel i a w, i <= n -> n - i <= fuel ->
    for_uint fuel (Z.of_nat i) (Z.of_nat n) body a w
    = for_each (seq i (n - i)) (fun j => body (Z.of_nat j)) a w.
Proof.
  intros Hn. induction fuel as [|fuel IH]; intros i a w Hi Hfuel.
  - replace (n - i) with 0 by lia. cbn [for_uint seq for_each].
    destruct (Z.ltb_spec (Z.of_nat i) (Z.of_nat n)); [lia | reflexivity].
  - cbn [for_uint].
    destruct (Z.ltb_spec (Z.of_nat i) (Z.of_nat n)) as [Hlt|Hge].
    + replace (n - i) with (Datatypes.S (n - Datatypes.S i)) by lia.
      cbn [seq for_each].
      replace (uint_incr (Z.of_nat i)) with (Z.of_nat (Datatypes.S i)).
      * apply bind_ext. intros a' w'. apply IH; lia.
      * unfold uint_incr, UINT_MAX in *. rewrite Z.mod_small; lia.
    + replace (n - i) with 0 by lia. reflexivity.
Qed.

(** A structured block is left as it returns; an exception ends the
    program where it was thrown. *)
Lemma must_not_throw_returns {A : Type} (block : M A) w a w' :
  block w = (Returns a, w') -> must_not_throw block w = (Returns a, w').
Proof. intros H. unfold must_not_throw. rewrite H. reflexivity. Qed.

Lemma must_not_throw_throws {A : Type} (block : M A) w e w' :
  block w = (Throws e, w') -> must_not_throw block w = (Terminates, w').
Proof. intros H. unfold must_not_throw. rewrite H. reflexivity. Qed.

End MonadFacts.

(** ** Lists written by index *)

Section IndexedWrites.
Context {A : Type}.

Lemma lookup_map_list {B : Type} (f : B -> A) (l : list B) (i : nat) :
  map f l !! i = option_map f (l !! i).
Proof.
  revert i. induction l as [|x l IH]; intros [|i]; cbn; auto.
Qed.

Lemma length_foldl_insert (g : nat -> A) (sched : list nat) (u : list A) :
  length (foldl (fun u i => <[i := g i]> u) u sched) = length u.
Proof.
  revert u. induction sched as [|i sched IH]; intros u; cbn [foldl].
  - reflexivity.
  - rewrite IH. apply length_insert.
Qed.

(** After the writes [u[i] = g i] for [i] along [sched], in any order and
    with any repetitions, the items visited hold [g] of their index and the
    others are untouched. *)
Lemma lookup_foldl_insert (g : nat -> A) (sched : list nat) (u : list A) j :
  j < length u ->
  foldl (fun u i => <[i := g i]> u) u sched !! j
  = if decide (j ∈ sched) then Some (g j) else u !! j.
Proof.
  revert u. induction sched as [|i sched IH]; intros u Hj; cbn [foldl].
  - rewrite decide_False by apply not_elem_of_nil. reflexivity.
  - rewrite IH by (rewrite length_insert; exact Hj).
    destruct (decide (j ∈ sched)) as [Hin|Hout].
    + rewrite decide_True by (apply elem_of_cons; auto). reflexivity.
    + destruct (decide (j = i)) as [->|Hne].
      * rewrite decide_True by (apply elem_of_cons; auto).
        apply list_lookup_insert_eq. exact Hj.
      * rewrite decide_False by (rewrite elem_of_cons; intros [?|?]; auto).
        apply list_lookup_insert_ne. auto.
Qed.

(** Written once per index in whatever order, the list ends up holding [g]
    of each index, in index order. *)
Lemma foldl_insert_permutation (g : nat -> A) (sched : list nat) (u : list A) :
  Permutation sched (seq 0 (length u)) ->
  foldl (fun u i => <[i := g i]> u) u sched = map g (seq 0 (length u)).
Proof.
  intros Hperm. apply list_eq. intros j.
  destruct (Nat.lt_ge_cases j (length u)) as [Hlt|Hge].
  - rewrite lookup_foldl_insert by exact Hlt.
    rewrite decide_True.
    + rewrite lookup_map_list, lookup_seq_lt by exact Hlt. reflexivity.
    + rewrite Hperm. apply elem_of_seq. lia.
  - rewrite !lookup_ge_None_2; [reflexivity| |].
    + rewrite length_map, length_seq. exact Hge.
    + rewrite length_foldl_insert. exact Hge.
Qed.

End IndexedWrites.

(** ** The bodies of the header *)

Section ClassFacts.
Context {HostDataType : Type}.
Variable minus : HostDataType -> HostDataType -> HostDataType.
Variable zero : HostDataType.
Variable indeterminate : nat -> nat -> HostDataType.
Context {World : Type}.
Variable hardware_concurrency : Z.
Variable order : operand_order.
Variable omp_schedule : World -> Z -> nat -> list nat.

#[local] Abbreviation MatrixX := (MatrixX HostDataType).
#[local] Abbreviation VectorXRef := (VectorXRef HostDataType).
#[local] Abbreviation M := (M World).
#[local] Abbreviation vtable := (vtable HostDataType World).
#[local] Abbreviation op_S_elem_const := (op_S_elem_const minus indeterminate order).
#[local] Abbreviation op_S_multi_const := (op_S_multi_const zero omp_schedule).
#[local] Abbreviation op_S_multi_elem_const :=
  (op_S_multi_elem_const minus zero indeterminate).
#[local] Abbreviation op_S_elems_const := (op_S_elems_const minus zero indeterminate).
#[local] Abbreviation minus_calls := (minus_calls minus order).

(** *** Building the augmented sets *)

(** The range-for of lines 121-125. *)
Lemma augment_each (elem : VectorXRef) (S_multi : list MatrixX) (w : World) :
  Forall (fun S => cols S = size elem) S_multi ->
  forall S_multi_elem,
    for_each S_multi (fun S_elem S_multi_elem =>
        let back := S_elem in
        let back := conservativeResize indeterminate back (rows S_elem + 1) in
        back ← required (row_comma_init back (rows S_elem) (transpose elem));
        mret (S_multi_elem ++ [back])) S_multi_elem w
    = (Returns (S_multi_elem ++ map (fun S => append_row S elem) S_multi), w).
Proof.
  induction 1 as [|S l Hcols _ IH]; intros acc; cbn [for_each map].
  - rewrite app_nil_r. reflexivity.
  - erewrite bind_returns; cycle 1.
    { cbv zeta. rewrite resize_then_row. unfold transpose.
      fold (size elem). rewrite <- Hcols, Nat.eqb_refl. reflexivity. }
    rewrite IH, <- app_assoc. reflexivity.
Qed.

(** The counted loop of lines 164-168. *)
Lemma augment_by_index (S : MatrixX) (elems : list VectorXRef) (w : World) :
  Forall (fun elem => size elem = cols S) elems ->
  (Z.of_nat (length elems) <= UINT_MAX)%Z ->
  for_uint (length elems) 0 (Z.of_nat (length elems))
    (fun i S_elems =>
      elem ← at_index elems (Z.to_nat i);
      S_i ← at_index S_elems (Z.to_nat i);
      let S_i := conservativeResize indeterminate S_i (rows S + 1) in
      S_i ← required (row_comma_init S_i (rows S) (transpose elem));
      store_at S_elems (Z.to_nat i) S_i) (replicate (length elems) S) w
  = (Returns (map (append_row S) elems), w).
Proof.
  intros Hsize Hlen.
  rewrite (for_uint_for_each _ (length elems) Hlen (length elems) 0) by lia.
  rewrite Nat.sub_0_r.
  set (n := length elems).
  destruct (for_each_invariant
    (fun k S_elems =>
       S_elems = map (append_row S) (take k elems) ++ replicate (n - k) S)
    (seq 0 n)
    (fun j S_elems =>
      elem ← at_index elems (Z.to_nat (Z.of_nat j));
      S_i ← at_index S_elems (Z.to_nat (Z.of_nat j));
      let S_i := conservativeResize indeterminate S_i (rows S + 1) in
      S_i ← required (row_comma_init S_i (rows S) (transpose elem));
      store_at S_elems (Z.to_nat (Z.of_nat j)) S_i) w) with
    (a := replicate n S) as (S_elems & Hrun & Hinv).
  - intros k i acc Hk ->. apply lookup_seq in Hk as [-> Hk]. cbn [Nat.add].
    rewrite Nat2Z.id.
    destruct (lookup_lt_is_Some_2 elems k Hk) as [elem Helem].
    assert (Helem_size : size elem = cols S).
    { eapply Forall_lookup_1 in Hsize; eauto. }
    eexists. split.
    + rewrite (bind_returns _ _ _ _ _ (at_index_run _ _ _ _ Helem)).
      erewrite bind_returns; cycle 1.
      { apply at_index_run. rewrite lookup_app_r; rewrite length_map, length_take;
          [|lia]. replace (k - k `min` length elems) with 0 by lia.
        apply lookup_replicate_2. lia. }
      cbv zeta. rewrite resize_then_row. unfold transpose. fold (size elem).
      rewrite Helem_size, Nat.eqb_refl. cbn [required].
      unfold mbind, M_bind, mret, M_ret.
      apply store_at_run.
      rewrite length_app, length_map, length_take, length_replicate. lia.
    + rewrite (take_S_r _ _ _ Helem), map_app. cbn [map].
      rewrite <- app_assoc. cbn [app].
      rewrite insert_app_r_alt; rewrite length_map, length_take; [|lia].
      replace (k - k `min` length elems) with 0 by lia.
      replace (n - k) with (Datatypes.S (n - Datatypes.S k)) by lia.
      reflexivity.
  - cbn [take map app]. rewrite Nat.sub_0_r. reflexivity.
  - rewrite Hrun. rewrite length_seq in Hinv. rewrite Hinv.
    rewrite Nat.sub_diag, app_nil_r. unfold n. rewrite firstn_all. reflexivity.
Qed.

(** *** Subtracting *)

(** The counted loop of lines 181-182. *)
Lemma gains_by_index (S_funcValue : HostDataType)
  (S_elems_funcValue : list HostDataType) (n : nat) (w : World) :
  length S_elems_funcValue = n ->
  (Z.of_nat n <= UINT_MAX)%Z ->
  for_uint n 0 (Z.of_nat n)
    (fun i gains =>
      v ← at_index S_elems_funcValue (Z.to_nat i);
      store_at gains (Z.to_nat i) (minus v S_funcValue)) (replicate n zero) w
  = (Returns (map (fun v => minus v S_funcValue) S_elems_funcValue), w).
Proof.
  intros Hlen Hn.
  rewrite (for_uint_for_each _ n Hn n 0) by lia. rewrite Nat.sub_0_r.
  destruct (for_each_invariant
    (fun k gains =>
       gains = map (fun v => minus v S_funcValue) (take k S_elems_funcValue)
               ++ replicate (n - k) zero)
    (seq 0 n)
    (fun j gains =>
      v ← at_index S_elems_funcValue (Z.to_nat (Z.of_nat j));
      store_at gains (Z.to_nat (Z.of_nat j)) (minus v S_funcValue)) w) with
    (a := replicate n zero) as (gains & Hrun & Hinv).
  - intros k i acc Hk ->. apply lookup_seq in Hk as [-> Hk]. cbn [Nat.add].
    rewrite Nat2Z.id.
    destruct (lookup_lt_is_Some_2 S_elems_funcValue k) as [v Hv]; [lia|].
    eexists. split.
    + rewrite (bind_returns _ _ _ _ _ (at_index_run _ _ _ _ Hv)).
      apply store_at_run.
      rewrite length_app, length_map, length_take, length_replicate. lia.
    + rewrite (take_S_r _ _ _ Hv), map_app. cbn [map].
      rewrite <- app_assoc. cbn [app].
      rewrite insert_app_r_alt; rewrite length_map, length_take; [|lia].
      replace (k - k `min` length S_elems_funcValue) with 0 by lia.
      replace (n - k) with (Datatypes.S (n - Datatypes.S k)) by lia.
      reflexivity.
  - cbn [take map app]. rewrite Nat.sub_0_r. reflexivity.
  - rewrite Hrun. rewrite length_seq in Hinv. rewrite Hinv.
    rewrite Nat.sub_diag, app_nil_r, <- Hlen, firstn_all. reflexivity.
Qed.

(** The loop of lines 135-136, on utilities that are the values of two
    functions over the same list. *)
Lemma gains_each {X : Type} (g g' : X -> HostDataType) (l : list X) (w : World) :
  for_each (seq 0 (length (map g l)))
    (fun i marginalGains =>
      a ← at_index (map g' l) i;
      b ← at_index (map g l) i;
      store_at marginalGains i (minus a b)) (replicate (length l) zero) w
  = (Returns (map (fun x => minus (g' x) (g x)) l), w).
Proof.
  rewrite length_map. set (n := length l).
  destruct (for_each_invariant
    (fun k gains =>
       gains = map (fun x => minus (g' x) (g x)) (take k l)
               ++ replicate (n - k) zero)
    (seq 0 n)
    (fun i marginalGains =>
      a ← at_index (map g' l) i;
      b ← at_index (map g l) i;
      store_at marginalGains i (minus a b)) w) with
    (a := replicate n zero) as (gains & Hrun & Hinv).
  - intros k i acc Hk ->. apply lookup_seq in Hk as [-> Hk]. cbn [Nat.add].
    destruct (lookup_lt_is_Some_2 l k Hk) as [x Hx].
    eexists. split.
    + erewrite bind_returns; cycle 1.
      { apply at_index_run. rewrite lookup_map_list, Hx. reflexivity. }
      erewrite bind_returns; cycle 1.
      { apply at_index_run. rewrite lookup_map_list, Hx. reflexivity. }
      apply store_at_run.
      rewrite length_app, length_map, length_take, length_replicate. lia.
    + rewrite (take_S_r _ _ _ Hx), map_app. cbn [map].
      rewrite <- app_assoc. cbn [app].
      rewrite insert_app_r_alt; rewrite length_map, length_take; [|lia].
      replace (k - k `min` length l) with 0 by lia.
      replace (n - k) with (Datatypes.S (n - Datatypes.S k)) by lia.
      reflexivity.
  - cbn [take map app]. rewrite Nat.sub_0_r. reflexivity.
  - rewrite Hrun. rewrite length_seq in Hinv. rewrite Hinv.
    rewrite Nat.sub_diag, app_nil_r. unfold n. rewrite firstn_all. reflexivity.
Qed.

(** *** The parallel loop *)

(** The parallel loop is left as its iterations, in the order the runtime
    ran them, return. *)
Lemma omp_parallel_for_returns {A : Type} (n : Z) (count : nat)
  (body : nat -> A -> M A) (a : A) (w : World) a' w' :
  for_each (omp_schedule w n count) body a w = (Returns a', w') ->
  omp_parallel_for omp_schedule n count body a w = (Returns a', w').
Proof. intros H. unfold omp_parallel_for. apply must_not_throw_returns, H. Qed.

(** The loop of lines 92-93 along any order of iterations, when the
    primitive computes [f]: the writes [utilities[i] = f(S_multi[i])], and a
    world the calls leave behind. *)
Lemma utilities_along (cls : vtable) (this : SubmodularFunction)
  (f : MatrixX -> HostDataType) (S_multi : list MatrixX) :
  computes cls this f ->
  forall iterations utilities w,
    Forall (fun i => i < length S_multi) iterations ->
    length utilities = length S_multi ->
    exists w',
      for_each iterations (fun i utilities =>
          S_i ← at_index S_multi i;
          u ← call_S_const cls this S_i;
          store_at utilities i u) utilities w
      = (Returns
           (foldl (fun u i => <[i := from_option f zero (S_multi !! i)]> u)
              utilities iterations), w').
Proof.
  intros Hf. induction iterations as [|i l IH]; intros u w Hall Hlen.
  - exists w. reflexivity.
  - apply Forall_cons in Hall as [Hi Hall].
    destruct (lookup_lt_is_Some_2 S_multi i Hi) as [S_i HS_i].
    pose proof (Hf S_i w) as Hcall.
    destruct (call_S_const cls this S_i w) as [r w1] eqn:Hrun.
    cbn [fst] in Hcall. subst r.
    destruct (IH (<[i := f S_i]> u) w1 Hall) as (w' & Hrest).
    { rewrite length_insert. exact Hlen. }
    exists w'. cbn [for_each foldl].
    erewrite bind_returns; cycle 1.
    { rewrite (bind_returns _ _ _ _ _ (at_index_run _ _ _ _ HS_i)).
      rewrite (bind_returns _ _ _ _ _ Hrun).
      apply store_at_run. lia. }
    rewrite HS_i. exact Hrest.
Qed.

Lemma map_by_index (f : MatrixX -> HostDataType) (S_multi : list MatrixX) :
  map (fun i => from_option f zero (S_multi !! i)) (seq 0 (length S_multi))
  = map f S_multi.
Proof.
  apply list_eq. intros i. rewrite !lookup_map_list.
  destruct (Nat.lt_ge_cases i (length S_multi)) as [Hlt|Hge].
  - rewrite lookup_seq_lt by exact Hlt.
    destruct (lookup_lt_is_Some_2 S_multi i Hlt) as [S HS].
    cbn. rewrite HS. reflexivity.
  - rewrite lookup_seq_ge by exact Hge.
    rewrite (lookup_ge_None_2 S_multi i Hge). reflexivity.
Qed.

(** Batch evaluation returns the values in the order of the sets, whatever
    order the iterations ran in. *)
Lemma batch_value (cls : vtable) (this : SubmodularFunction)
  (f : MatrixX -> HostDataType) (S_multi : list MatrixX) (w : World) :
  runs_each_iteration_once omp_schedule ->
  computes cls this f ->
  fst (op_S_multi_const cls this S_multi w) = Returns (map f S_multi).
Proof.
  intros Hsched Hf. unfold op_S_multi_const.
  set (iterations := omp_schedule w (num_threads this) (length S_multi)).
  destruct (utilities_along cls this f S_multi Hf iterations
              (replicate (length S_multi) zero) w) as (w' & Hrun).
  - unfold iterations. rewrite (Hsched w _ _).
    apply Forall_forall. intros i Hi. apply elem_of_seq in Hi. lia.
  - apply length_replicate.
  - rewrite (bind_returns _ _ _ _ _
               (omp_parallel_for_returns _ _ _ _ _ _ _ Hrun)).
    cbn [mret M_ret fst].
    rewrite <- (map_by_index f S_multi). f_equal.
    rewrite <- (length_replicate (length S_multi) zero) at 2.
    apply foldl_insert_permutation. rewrite length_replicate. apply Hsched.
Qed.

(** *** What each body runs *)

Lemma op_S_elem_const_run (cls : vtable) (this : SubmodularFunction)
  (S : MatrixX) (elem : VectorXRef) (w : World) :
  cols S = size elem ->
  op_S_elem_const cls this S elem w
  = minus_calls (call_S_const cls this (append_row S elem))
      (call_S_const cls this S) w.
Proof.
  intros Hcols. unfold op_S_elem_const.
  destruct (Nat.eqb_spec (cols S) (size elem)) as [_|Hne]; [|contradiction].
  cbv zeta. rewrite resize_then_row. unfold transpose. fold (size elem).
  rewrite <- Hcols, Nat.eqb_refl. reflexivity.
Qed.

Lemma op_S_multi_elem_const_run (cls : vtable) (this : SubmodularFunction)
  (S_multi : list MatrixX) (elem : VectorXRef) (w : World) :
  Forall (fun S => cols S = size elem) S_multi ->
  op_S_multi_elem_const cls this S_multi elem w
  = (utilityS_multi ← call_S_multi_const cls this S_multi;
     utilityS_multi_elem ←
       call_S_multi_const cls this (map (fun S => append_row S elem) S_multi);
     marginalGains ← for_each (seq 0 (length utilityS_multi))
       (fun i marginalGains =>
         a ← at_index utilityS_multi_elem i;
         b ← at_index utilityS_multi i;
         store_at marginalGains i (minus a b))
       (replicate (length S_multi) zero);
     mret marginalGains) w.
Proof.
  intros Hcols. unfold op_S_multi_elem_const. cbv zeta.
  erewrite bind_returns; [|apply (augment_each elem S_multi w Hcols [])].
  reflexivity.
Qed.

Lemma op_S_elems_const_run (cls : vtable) (this : SubmodularFunction)
  (S : MatrixX) (elems : list VectorXRef) (w : World) :
  Forall (fun elem => size elem = cols S) elems ->
  (Z.of_nat (length elems) <= UINT_MAX)%Z ->
  op_S_elems_const cls this S elems w
  = (S_funcValue ← call_S_const cls this S;
     S_elems_funcValue ←
       call_S_multi_const cls this (map (append_row S) elems);
     gains ← for_uint (length elems) 0 (Z.of_nat (length elems))
       (fun i gains =>
         v ← at_index S_elems_funcValue (Z.to_nat i);
         store_at gains (Z.to_nat i) (minus v S_funcValue))
       (replicate (length elems) zero);
     mret gains) w.
Proof.
  intros Hsize Hlen. unfold op_S_elems_const. cbv zeta.
  erewrite bind_returns; [|apply (augment_by_index S elems w Hsize Hlen)].
  reflexivity.
Qed.

Lemma minus_calls_value (a b : M HostDataType) (x y : HostDataType) :
  (forall w, fst (a w) = Returns x) ->
  (forall w, fst (b w) = Returns y) ->
  forall w, fst (minus_calls a b w) = Returns (minus x y).
Proof.
  intros Ha Hb w. unfold minus_calls. destruct order; unfold mbind, M_bind.
  - pose proof (Ha w) as Ha'. destruct (a w) as [ra w1]. cbn in Ha'. subst ra.
    pose proof (Hb w1) as Hb'. destruct (b w1) as [rb w2]. cbn in Hb'. subst rb.
    reflexivity.
  - pose proof (Hb w) as Hb'. destruct (b w) as [rb w1]. cbn in Hb'. subst rb.
    pose proof (Ha w1) as Ha'. destruct (a w1) as [ra w2]. cbn in Ha'. subst ra.
    reflexivity.
Qed.

Lemma marginal_gain_value (cls : vtable) (this : SubmodularFunction)
  (f : MatrixX -> HostDataType) (S : MatrixX) (elem : VectorXRef) (w : World) :
  cols S = size elem ->
  computes cls this f ->
  fst (op_S_elem_const cls this S elem w)
  = Returns (minus (f (append_row S elem)) (f S)).
Proof.
  intros Hcols Hf. rewrite op_S_elem_const_run by exact Hcols.
  apply minus_calls_value; intros w'; apply Hf.
Qed.

(** *** The mismatch message *)

(** The message determines the two sizes it was built from. *)
Lemma mismatch_message_inj (c s c' s' : Z) :
  mismatch_message c s = mismatch_message c' s' -> c = c' /\ s = s'.
Proof.
  unfold mismatch_message. intros H.
  apply append_inv_head in H.
  change (String.append " vs. " ?x) with (String " "%char (String.append "vs. " x)) in H.
  apply append_split in H as [Hc H].
  - apply to_string_inj in Hc. split; [exact Hc|].
    cbn [String.append] in H. injection H as H.
    change ")."%string with (String ")"%char ".") in H.
    apply append_split in H as [Hs _].
    + apply to_string_inj. exact Hs.
    + intros Hin. apply chars_of_to_string in Hin. cbn in Hin.
      repeat (destruct Hin as [Hin|Hin]; [discriminate Hin|]). exact Hin.
    + intros Hin. apply chars_of_to_string in Hin. cbn in Hin.
      repeat (destruct Hin as [Hin|Hin]; [discriminate Hin|]). exact Hin.
  - intros Hin. apply chars_of_to_string in Hin. cbn in Hin.
    repeat (destruct Hin as [Hin|Hin]; [discriminate Hin|]). exact Hin.
  - intros Hin. apply chars_of_to_string in Hin. cbn in Hin.
    repeat (destruct Hin as [Hin|Hin]; [discriminate Hin|]). exact Hin.
Qed.

(** *** Exceptions on their way out *)

Lemma minus_calls_first_throws (a b : M HostDataType) w e w' :
  fst (operands_in_order order a b) w = (Throws e, w') ->
  minus_calls a b w = (Throws e, w').
Proof.
  unfold operands_in_order, minus_calls. destruct order; cbn [fst]; intros H;
    apply (bind_throws _ _ _ _ _ H).
Qed.

Lemma minus_calls_second_throws (a b : M HostDataType) w v w1 e w' :
  fst (operands_in_order order a b) w = (Returns v, w1) ->
  snd (operands_in_order order a b) w1 = (Throws e, w') ->
  minus_calls a b w = (Throws e, w').
Proof.
  unfold operands_in_order, minus_calls. destruct order; cbn [fst snd];
    intros H1 H2; rewrite (bind_returns _ _ _ _ _ H1);
    apply (bind_throws _ _ _ _ _ H2).
Qed.

(** The first call that throws along the order of the iterations ends the
    program: the loop of lines 92-93 is an OpenMP structured block. *)
Lemma batch_terminates (cls : vtable) (this : SubmodularFunction)
  (S_multi : list MatrixX) (w : World) done i rest utilities w1 S_i e w' :
  omp_schedule w (num_threads this) (length S_multi) = done ++ i :: rest ->
  for_each done (utilities_body cls this S_multi)
    (replicate (length S_multi) zero) w = (Returns utilities, w1) ->
  S_multi !! i = Some S_i ->
  call_S_const cls this S_i w1 = (Throws e, w') ->
  op_S_multi_const cls this S_multi w = (Terminates, w').
Proof.
  intros Hsched Hdone HS_i Hcall. unfold op_S_multi_const.
  apply bind_terminates. unfold omp_parallel_for.
  apply (must_not_throw_throws _ _ e). rewrite Hsched.
  rewrite for_each_app.
  change (fun (i0 : nat) (utilities0 : list HostDataType) =>
            S_i0 ← at_index S_multi i0;
            u ← call_S_const cls this S_i0;
            store_at utilities0 i0 u)
    with (utilities_body cls this S_multi).
  rewrite (bind_returns _ _ _ _ _ Hdone). cbn [for_each].
  apply bind_throws. unfold utilities_body.
  rewrite (bind_returns _ _ _ _ _ (at_index_run _ _ _ _ HS_i)).
  apply (bind_throws _ _ _ _ _ Hcall).
Qed.

(** ** The claims *)

(** C1. For every collection [S] and element [elem] whose dimension is the
    number of columns of [S], the marginal gain runs the evaluation
    primitive on [S] with [elem] appended as a new last row and on [S] as it
    was passed, and returns the first value minus the second; with a
    primitive that computes [f] the result is
    [f (append_row S elem) - f S]. *)
Theorem C1_marginal_gain (cls : vtable) (this : SubmodularFunction)
  (S : MatrixX) (elem : VectorXRef) :
  cols S = size elem ->
  (forall w,
     op_S_elem_const cls this S elem w
     = minus_calls (call_S_const cls this (append_row S elem))
         (call_S_const cls this S) w)
  /\ (forall f, computes cls this f -> forall w,
        fst (op_S_elem_const cls this S elem w)
        = Returns (minus (f (append_row S elem)) (f S))).
Proof.
  intros Hcols. split.
  - intros w. apply op_S_elem_const_run. exact Hcols.
  - intros f Hf w. apply marginal_gain_value; assumption.
Qed.

(** C2. For every list of sets, with a primitive whose value [f] depends on
    the set alone, batch evaluation returns as many values as there are
    sets, the value at each index being that of the set at that index, for
    any worker count (any [this]) and any order in which the runtime runs
    each iteration once. *)
Theorem C2_batch_evaluation (cls : vtable) (this : SubmodularFunction)
  (f : MatrixX -> HostDataType) (S_multi : list MatrixX) (w : World) :
  runs_each_iteration_once omp_schedule ->
  computes cls this f ->
  exists utilities,
    fst (op_S_multi_const cls this S_multi w) = Returns utilities
    /\ length utilities = length S_multi
    /\ forall i S_i, S_multi !! i = Some S_i -> utilities !! i = Some (f S_i).
Proof.
  intros Hsched Hf. exists (map f S_multi). split; [|split].
  - apply batch_value; assumption.
  - apply length_map.
  - intros i S_i Hi. rewrite lookup_map_list, Hi. reflexivity.
Qed.

(** X17. Within the range of the counter of lines 164 and 181: for every
    collection [S] and every sequence [elems] of at most [UINT_MAX] elements
    of the dimension of [S], in a class that keeps the header's batch
    evaluation and whose primitive computes [f], the batch marginal gain of
    [elems] returns as many gains as there are elements, the gain at index
    [j] being [f (append_row S elem_j) - f S], which is what the marginal
    gain of [elem_j] returns. *)
Theorem X17_gains_within_the_counter_range (cls : vtable)
  (this : SubmodularFunction)
  (f : MatrixX -> HostDataType) (S : MatrixX) (elems : list VectorXRef)
  (w : World) :
  runs_each_iteration_once omp_schedule ->
  inherits_S_multi_const zero omp_schedule cls ->
  computes cls this f ->
  Forall (fun elem => size elem = cols S) elems ->
  (Z.of_nat (length elems) <= UINT_MAX)%Z ->
  exists gains,
    fst (op_S_elems_const cls this S elems w) = Returns gains
    /\ length gains = length elems
    /\ forall j elem, elems !! j = Some elem ->
         gains !! j = Some (minus (f (append_row S elem)) (f S))
         /\ forall w', fst (op_S_elem_const cls this S elem w')
                       = Returns (minus (f (append_row S elem)) (f S)).
Proof.
  intros Hsched Hbatch Hf Hsize Hlen.
  exists (map (fun elem => minus (f (append_row S elem)) (f S)) elems).
  split; [|split].
  - rewrite op_S_elems_const_run by assumption.
    pose proof (Hf S w) as HS.
    destruct (call_S_const cls this S w) as [r w1] eqn:HrunS.
    cbn [fst] in HS. subst r.
    rewrite (bind_returns _ _ _ _ _ HrunS).
    pose proof (batch_value cls this f (map (append_row S) elems) w1 Hsched Hf)
      as Hvals.
    rewrite <- Hbatch in Hvals.
    destruct (call_S_multi_const cls this (map (append_row S) elems) w1)
      as [r w2] eqn:Hrun. cbn [fst] in Hvals. subst r.
    rewrite (bind_returns _ _ _ _ _ Hrun).
    erewrite bind_returns; cycle 1.
    { apply gains_by_index; [|exact Hlen]. rewrite !length_map. reflexivity. }
    cbn [mret M_ret fst]. rewrite !map_map. reflexivity.
  - apply length_map.
  - intros j elem Hj. split.
    + rewrite lookup_map_list, Hj. reflexivity.
    + intros w'. apply marginal_gain_value; [|exact Hf].
      symmetry. eapply Forall_lookup_1 in Hsize; eauto.
Qed.

(** C4. The marginal gain fails with the dimension mismatch error exactly
    when the dimension of [elem] differs from the number of columns of [S]:
    on a mismatch it throws the [runtime_error] whose message holds the two
    sizes, before any evaluation and leaving the world as it was; with a
    primitive that returns, nothing else makes it throw that error; and the
    message determines both sizes. *)
Theorem C4_dimension_mismatch (cls : vtable) (this : SubmodularFunction)
  (S : MatrixX) (elem : VectorXRef) (w : World) :
  (cols S <> size elem ->
     op_S_elem_const cls this S elem w
     = (Throws (runtime_error
                  (mismatch_message (Z.of_nat (cols S)) (Z.of_nat (size elem)))),
        w))
  /\ (forall f, computes cls this f ->
        (fst (op_S_elem_const cls this S elem w)
         = Throws (runtime_error
                     (mismatch_message (Z.of_nat (cols S))
                        (Z.of_nat (size elem))))
         <-> cols S <> size elem))
  /\ (forall S_cols elem_size S_cols' elem_size' : Z,
        mismatch_message S_cols elem_size = mismatch_message S_cols' elem_size' ->
        S_cols = S_cols' /\ elem_size = elem_size').
Proof.
  assert (Hthrow : cols S <> size elem ->
     op_S_elem_const cls this S elem w
     = (Throws (runtime_error
                  (mismatch_message (Z.of_nat (cols S)) (Z.of_nat (size elem)))),
        w)).
  { intros Hne. unfold op_S_elem_const.
    destruct (Nat.eqb_spec (cols S) (size elem)) as [Heq|_]; [contradiction|].
    reflexivity. }
  split; [exact Hthrow|split].
  - intros f Hf. split.
    + intros Hrun Heq.
      rewrite (marginal_gain_value cls this f S elem w Heq Hf) in Hrun.
      discriminate Hrun.
    + intros Hne. rewrite (Hthrow Hne). reflexivity.
  - apply mismatch_message_inj.
Qed.

(** C5. For every list of sets and every element whose dimension is the
    number of columns of each set, in a class that keeps the header's batch
    evaluation and whose primitive computes [f], the batch marginal gain of
    the element returns as many gains as there are sets, the gain at index
    [i] being [f (append_row S_i elem) - f S_i], which is what the marginal
    gain of [elem] with respect to [S_i] returns. *)
Theorem C5_gains_of_sets (cls : vtable) (this : SubmodularFunction)
  (f : MatrixX -> HostDataType) (S_multi : list MatrixX) (elem : VectorXRef)
  (w : World) :
  runs_each_iteration_once omp_schedule ->
  inherits_S_multi_const zero omp_schedule cls ->
  computes cls this f ->
  Forall (fun S => cols S = size elem) S_multi ->
  exists marginalGains,
    fst (op_S_multi_elem_const cls this S_multi elem w) = Returns marginalGains
    /\ length marginalGains = length S_multi
    /\ forall i S_i, S_multi !! i = Some S_i ->
         marginalGains !! i = Some (minus (f (append_row S_i elem)) (f S_i))
         /\ forall w', fst (op_S_elem_const cls this S_i elem w')
                       = Returns (minus (f (append_row S_i elem)) (f S_i)).
Proof.
  intros Hsched Hbatch Hf Hcols.
  exists (map (fun S => minus (f (append_row S elem)) (f S)) S_multi).
  split; [|split].
  - rewrite op_S_multi_elem_const_run by assumption.
    pose proof (batch_value cls this f S_multi w Hsched Hf) as Hvals.
    rewrite <- Hbatch in Hvals.
    destruct (call_S_multi_const cls this S_multi w) as [r w1] eqn:Hrun.
    cbn [fst] in Hvals. subst r.
    rewrite (bind_returns _ _ _ _ _ Hrun).
    pose proof (batch_value cls this f
                  (map (fun S => append_row S elem) S_multi) w1 Hsched Hf)
      as Hvals'.
    rewrite <- Hbatch in Hvals'.
    destruct (call_S_multi_const cls this
                (map (fun S => append_row S elem) S_multi) w1)
      as [r w2] eqn:Hrun'.
    cbn [fst] in Hvals'. subst r.
    rewrite (bind_returns _ _ _ _ _ Hrun').
    erewrite bind_returns; cycle 1.
    { rewrite map_map.
      apply (gains_each f (fun S => f (append_row S elem)) S_multi w2). }
    reflexivity.
  - apply length_map.
  - intros i S_i Hi. split.
    + rewrite lookup_map_list, Hi. reflexivity.
    + intros w'. apply marginal_gain_value; [|exact Hf].
      eapply Forall_lookup_1 in Hcols; eauto.
Qed.

Lemma worker_count_set (n : Z) (this : SubmodularFunction) :
  getWorkerCount (setWorkerCount hardware_concurrency n this)
  = (if n >=? 1 then to_unsigned n
     else if hardware_concurrency >? 0 then hardware_concurrency else 1)%Z.
Proof.
  unfold getWorkerCount, setWorkerCount.
  destruct (n >=? 1)%Z; reflexivity.
Qed.

(** C7. For every [int] [n], after [setWorkerCount n] the worker count read
    back is [n] when [n >= 1]; otherwise it is the hardware concurrency the
    platform reports, or [1] when the platform reports [0]. The constructor
    resolves its argument, or [-1] when it has none, by the same rule. *)
Theorem C7_worker_count (n : Z) (this : SubmodularFunction) :
  is_int n ->
  ((1 <= n)%Z ->
     getWorkerCount (setWorkerCount hardware_concurrency n this) = n)
  /\ ((n < 1)%Z -> (0 < hardware_concurrency)%Z ->
       getWorkerCount (setWorkerCount hardware_concurrency n this)
       = hardware_concurrency)
  /\ ((n < 1)%Z -> hardware_concurrency = 0%Z ->
       getWorkerCount (setWorkerCount hardware_concurrency n this) = 1%Z)
  /\ getWorkerCount (construct hardware_concurrency (Some n))
     = getWorkerCount (setWorkerCount hardware_concurrency n this)
  /\ getWorkerCount (construct hardware_concurrency None)
     = getWorkerCount (setWorkerCount hardware_concurrency (-1) this).
Proof.
  intros [Hmin Hmax]. unfold INT_MIN, INT_MAX in *.
  change (construct hardware_concurrency (Some n))
    with (setWorkerCount hardware_concurrency n {| _workerCount := 1 |}).
  change (construct hardware_concurrency None)
    with (setWorkerCount hardware_concurrency (-1) {| _workerCount := 1 |}).
  rewrite !worker_count_set. unfold to_unsigned.
  destruct (Z.geb_spec n 1) as [Hge|Hlt].
  - repeat split; try lia. intros _. rewrite Z.mod_small; lia.
  - repeat split; try lia.
    + intros _ Hhw. destruct (Z.gtb_spec hardware_concurrency 0); lia.
    + intros _ ->. reflexivity.
Qed.

(** C9. The stored worker count is at least [1]: in every object built by
    the constructor and updated by [setWorkerCount], with any [int]
    arguments, [getWorkerCount] returns at least [1]; and the number of
    threads the batch loop asks for is at least [1] too, as long as the
    hardware concurrency fits an [int]. *)
Theorem C9_worker_count_positive (this : SubmodularFunction) :
  constructed hardware_concurrency this ->
  (1 <= getWorkerCount this)%Z
  /\ ((hardware_concurrency <= INT_MAX)%Z -> (1 <= num_threads this)%Z).
Proof.
  assert (Hset : forall n o, is_int n ->
            (1 <= getWorkerCount (setWorkerCount hardware_concurrency n o))%Z
            /\ ((hardware_concurrency <= INT_MAX)%Z ->
                (1 <= num_threads (setWorkerCount hardware_concurrency n o))%Z)).
  { intros n o [Hmin Hmax]. unfold INT_MIN, INT_MAX in *.
    unfold num_threads, to_int, setWorkerCount, getWorkerCount, to_unsigned,
      INT_MAX.
    destruct (Z.geb_spec n 1) as [Hge|Hlt]; cbn [_workerCount].
    - rewrite Z.mod_small by lia.
      split; [lia|]. intros _. destruct (Z.leb_spec n 2147483647); lia.
    - destruct (Z.gtb_spec hardware_concurrency 0) as [Hhw|Hhw].
      + split; [lia|]. intros Hfit.
        destruct (Z.leb_spec hardware_concurrency 2147483647); lia.
      + split; [lia|]. intros _. reflexivity. }
  intros Hthis. destruct Hthis as [|n Hn|n o Hn _].
  - apply Hset. unfold is_int, INT_MIN, INT_MAX. cbn. lia.
  - apply Hset. exact Hn.
  - apply Hset. exact Hn.
Qed.

(** X19. Outside the parallel loop an exception leaves a wrapper as it was
    thrown, in the world the failing call left behind: nothing is caught,
    nothing runs after it, no value is returned. In the marginal gain this
    holds for whichever operand is evaluated first and for the other one
    after it; in the two batch marginal gains, for the calls they make
    through the object (the primitive on [S], and a batch evaluation that
    throws, as one that a subclass puts in place of the header's may).
    Inside the parallel loop of batch evaluation the first call that
    throws along the order of the iterations ends the program: no value is
    returned and no exception reaches the caller. *)
Theorem X19_failures_on_their_way_out (cls : vtable)
  (this : SubmodularFunction)
  (e : exception) (w w' : World) :
  (forall S elem, cols S = size elem ->
     let calls := operands_in_order order
                    (call_S_const cls this (append_row S elem))
                    (call_S_const cls this S) in
     (fst calls w = (Throws e, w') ->
        op_S_elem_const cls this S elem w = (Throws e, w'))
     /\ (forall v w1, fst calls w = (Returns v, w1) ->
           snd calls w1 = (Throws e, w') ->
           op_S_elem_const cls this S elem w = (Throws e, w')))
  /\ (forall S_multi done i rest utilities w1 S_i,
        omp_schedule w (num_threads this) (length S_multi)
        = done ++ i :: rest ->
        for_each done (utilities_body cls this S_multi)
          (replicate (length S_multi) zero) w = (Returns utilities, w1) ->
        S_multi !! i = Some S_i ->
        call_S_const cls this S_i w1 = (Throws e, w') ->
        op_S_multi_const cls this S_multi w = (Terminates, w'))
  /\ (forall S_multi elem, Forall (fun S => cols S = size elem) S_multi ->
        (call_S_multi_const cls this S_multi w = (Throws e, w') ->
           op_S_multi_elem_const cls this S_multi elem w = (Throws e, w'))
        /\ (forall utilityS_multi w1,
              call_S_multi_const cls this S_multi w
              = (Returns utilityS_multi, w1) ->
              call_S_multi_const cls this
                (map (fun S => append_row S elem) S_multi) w1
              = (Throws e, w') ->
              op_S_multi_elem_const cls this S_multi elem w = (Throws e, w')))
  /\ (forall S elems, Forall (fun elem => size elem = cols S) elems ->
        (Z.of_nat (length elems) <= UINT_MAX)%Z ->
        (call_S_const cls this S w = (Throws e, w') ->
           op_S_elems_const cls this S elems w = (Throws e, w'))
        /\ (forall S_funcValue w1,
              call_S_const cls this S w = (Returns S_funcValue, w1) ->
              call_S_multi_const cls this (map (append_row S) elems) w1
              = (Throws e, w') ->
              op_S_elems_const cls this S elems w = (Throws e, w'))).
Proof.
  split; [|split; [|split]].
  - intros S elem Hcols calls. subst calls. split.
    + intros H. rewrite op_S_elem_const_run by exact Hcols.
      apply minus_calls_first_throws. exact H.
    + intros v w1 H1 H2. rewrite op_S_elem_const_run by exact Hcols.
      eapply minus_calls_second_throws; eassumption.
  - intros. eapply batch_terminates; eassumption.
  - intros S_multi elem Hcols. split.
    + intros H. rewrite op_S_multi_elem_const_run by exact Hcols.
      apply (bind_throws _ _ _ _ _ H).
    + intros us w1 H1 H2. rewrite op_S_multi_elem_const_run by exact Hcols.
      rewrite (bind_returns _ _ _ _ _ H1). apply (bind_throws _ _ _ _ _ H2).
  - intros S elems Hsize Hlen. split.
    + intros H. rewrite op_S_elems_const_run by assumption.
      apply (bind_throws _ _ _ _ _ H).
    + intros v w1 H1 H2. rewrite op_S_elems_const_run by assumption.
      rewrite (bind_returns _ _ _ _ _ H1). apply (bind_throws _ _ _ _ _ H2).
Qed.

(** C10. Each non-const overload of the marginal gain, of batch evaluation
    and of the two batch marginal gains hands its arguments to the const
    overload of the object and returns its result; in a class that
    implements only the primitive, the entry of each non-const overload
    gives the result of the const entry, whatever the non-const primitive
    does. *)
Theorem C10_non_const_delegates (this : SubmodularFunction) (w : World) :
  (forall (cls : vtable),
     (forall S elem,
        op_S_elem cls this S elem w = call_S_elem_const cls this S elem w)
     /\ (forall S_multi,
           op_S_multi cls this S_multi w = call_S_multi_const cls this S_multi w)
     /\ (forall S_multi elem,
           op_S_multi_elem cls this S_multi elem w
           = call_S_multi_elem_const cls this S_multi elem w)
     /\ (forall S elems,
           op_S_elems cls this S elems w
           = call_S_elems_const cls this S elems w))
  /\ (forall evaluate_const evaluate,
        let cls := Derived minus zero indeterminate hardware_concurrency order
                     omp_schedule evaluate_const evaluate in
        (forall S elem,
           call_S_elem cls this S elem w = call_S_elem_const cls this S elem w)
        /\ (forall S_multi,
              call_S_multi cls this S_multi w
              = call_S_multi_const cls this S_multi w)
        /\ (forall S_multi elem,
              call_S_multi_elem cls this S_multi elem w
              = call_S_multi_elem_const cls this S_multi elem w)
        /\ (forall S elems,
              call_S_elems cls this S elems w
              = call_S_elems_const cls this S elems w)).
Proof.
  split.
  - intros cls. repeat split.
  - intros evaluate_const evaluate cls. subst cls. repeat split.
Qed.

(** The table of [Derived] is closed: every entry the subclass inherits is
    the header's body dispatching on that very table. *)
Lemma Derived_inherits evaluate_const evaluate :
  let cls := Derived minus zero indeterminate hardware_concurrency order
               omp_schedule evaluate_const evaluate in
  inherits_S_elem_const minus indeterminate order cls
  /\ inherits_S_multi_const zero omp_schedule cls
  /\ inherits_S_multi_elem_const minus zero indeterminate cls
  /\ inherits_S_elems_const minus zero indeterminate cls.
Proof. repeat split. Qed.

End ClassFacts.

(** ** Counting the calls *)

Section CountingFacts.
Context {HostDataType : Type}.
Variable minus : HostDataType -> HostDataType -> HostDataType.
Variable zero : HostDataType.
Variable indeterminate : nat -> nat -> HostDataType.

#[local] Abbreviation MatrixX := (MatrixX HostDataType).
#[local] Abbreviation VectorXRef := (VectorXRef HostDataType).
#[local] Abbreviation vtable := (vtable HostDataType (list (call HostDataType))).

(** X18. Within the range of the counter of lines 164 and 181: on an object
    whose primitive and whose batch evaluation record their calls, the
    batch marginal gain of [M] elements, at most [UINT_MAX], adds exactly
    two calls to the record: one evaluation of [S], then one batch
    evaluation of the [M] augmented sets; no augmented set is evaluated by
    a call of its own, and each gain is the value of an augmented set minus
    the one value of [S]. *)
Theorem X18_one_evaluation_one_batch (cls : vtable)
  (this : SubmodularFunction)
  (f : MatrixX -> HostDataType) (S : MatrixX) (elems : list VectorXRef)
  (calls : list (call HostDataType)) :
  records_evaluations cls f ->
  records_batches cls f ->
  Forall (fun elem => size elem = cols S) elems ->
  (Z.of_nat (length elems) <= UINT_MAX)%Z ->
  op_S_elems_const minus zero indeterminate cls this S elems calls
  = (Returns (map (fun elem => minus (f (append_row S elem)) (f S)) elems),
     calls ++ [evaluated S; evaluated_batch (map (append_row S) elems)]).
Proof.
  intros Heval Hbatch Hsize Hlen.
  rewrite op_S_elems_const_run by assumption.
  rewrite (bind_returns _ _ _ _ _ (Heval this S calls)).
  rewrite (bind_returns _ _ _ _ _ (Hbatch this _ _)).
  erewrite bind_returns; cycle 1.
  { apply gains_by_index; [|exact Hlen]. rewrite !length_map. reflexivity. }
  cbn [mret M_ret]. rewrite !map_map, <- app_assoc. reflexivity.
Qed.

End CountingFacts.

Section CountingInherited.
Context {HostDataType : Type}.
Variable minus : HostDataType -> HostDataType -> HostDataType.
Variable zero : HostDataType.
Variable indeterminate : nat -> nat -> HostDataType.
Variable omp_schedule : list (call HostDataType) -> Z -> nat -> list nat.

#[local] Abbreviation MatrixX := (MatrixX HostDataType).
#[local] Abbreviation VectorXRef := (VectorXRef HostDataType).
#[local] Abbreviation vtable := (vtable HostDataType (list (call HostDataType))).

(** The loop of lines 92-93 on a recording primitive: one evaluation per
    iteration, recorded in the order of the iterations. *)
Lemma utilities_recorded (cls : vtable) (this : SubmodularFunction)
  (f : MatrixX -> HostDataType) (S_multi : list MatrixX) (d : MatrixX) :
  records_evaluations cls f ->
  forall iterations utilities calls,
    Forall (fun i => i < length S_multi) iterations ->
    length utilities = length S_multi ->
    for_each iterations (utilities_body cls this S_multi) utilities calls
    = (Returns
         (foldl (fun u i => <[i := from_option f zero (S_multi !! i)]> u)
            utilities iterations),
       calls ++ map (fun i => evaluated (nth i S_multi d)) iterations).
Proof.
  intros Hf. induction iterations as [|i l IH]; intros u calls Hall Hlen.
  - cbn. rewrite app_nil_r. reflexivity.
  - apply Forall_cons in Hall as [Hi Hall].
    destruct (lookup_lt_is_Some_2 S_multi i Hi) as [S_i HS_i].
    cbn [for_each foldl map]. rewrite HS_i. cbn [from_option].
    erewrite bind_returns; cycle 1.
    { unfold utilities_body.
      rewrite (bind_returns _ _ _ _ _ (at_index_run _ _ _ _ HS_i)).
      rewrite (bind_returns _ _ _ _ _ (Hf this S_i calls)).
      apply store_at_run. lia. }
    rewrite IH; [|exact Hall|rewrite length_insert; exact Hlen].
    rewrite <- app_assoc. cbn [app].
    rewrite (nth_lookup_Some _ _ d _ HS_i). reflexivity.
Qed.

(** Batch evaluation on a recording primitive. *)
Lemma batch_recorded (cls : vtable) (this : SubmodularFunction)
  (f : MatrixX -> HostDataType) (S_multi : list MatrixX) (d : MatrixX)
  (calls : list (call HostDataType)) :
  runs_each_iteration_once omp_schedule ->
  records_evaluations cls f ->
  op_S_multi_const zero omp_schedule cls this S_multi calls
  = (Returns (map f S_multi),
     calls ++ map (fun i => evaluated (nth i S_multi d))
                (omp_schedule calls (num_threads this) (length S_multi))).
Proof.
  intros Hsched Hf. unfold op_S_multi_const.
  set (iterations := omp_schedule calls (num_threads this) (length S_multi)).
  assert (Hperm : Permutation iterations (seq 0 (length S_multi)))
    by apply Hsched.
  rewrite (bind_returns _ _ _ _ _
             (omp_parallel_for_returns omp_schedule _ _ _ _ _ _ _
                (utilities_recorded cls this f S_multi d Hf iterations
                   (replicate (length S_multi) zero) calls
                   ltac:(rewrite Hperm; apply Forall_forall; intros i Hi;
                         apply elem_of_seq in Hi; lia)
                   ltac:(apply length_replicate)))).
  unfold mret, M_ret. do 2 f_equal.
  rewrite <- (map_by_index zero f S_multi).
  rewrite <- (length_replicate (length S_multi) zero) at 2.
  apply foldl_insert_permutation. rewrite length_replicate. exact Hperm.
Qed.

(** In a subclass that keeps the header's batch evaluation, the batch
    marginal gain of [M] elements evaluates [S] once, then the augmented set
    of each index once, in the order the runtime picks; no augmented set is
    [S]. *)
Lemma inherited_batch_evaluates_S_once (cls : vtable)
  (this : SubmodularFunction) (f : MatrixX -> HostDataType) (S : MatrixX)
  (elems : list VectorXRef) (calls : list (call HostDataType)) :
  runs_each_iteration_once omp_schedule ->
  records_evaluations cls f ->
  inherits_S_multi_const zero omp_schedule cls ->
  Forall (fun elem => size elem = cols S) elems ->
  (Z.of_nat (length elems) <= UINT_MAX)%Z ->
  exists iterations,
    Permutation iterations (seq 0 (length elems))
    /\ (forall i, evaluated (append_row S (nth i elems [])) <> evaluated S)
    /\ op_S_elems_const minus zero indeterminate cls this S elems calls
       = (Returns (map (fun elem => minus (f (append_row S elem)) (f S)) elems),
          calls ++ evaluated S
            :: map (fun i => evaluated (append_row S (nth i elems [])))
                 iterations).
Proof.
  intros Hsched Hf Hbatch Hsize Hlen.
  exists (omp_schedule (calls ++ [evaluated S]) (num_threads this)
            (length (map (append_row S) elems))).
  split; [|split].
  - rewrite <- (length_map (append_row S) elems) at 1. apply Hsched.
  - intros i H. injection H as H. exact (append_row_neq _ _ H).
  - rewrite op_S_elems_const_run by assumption.
    rewrite (bind_returns _ _ _ _ _ (Hf this S calls)).
    rewrite (bind_returns _ _ _ _ _
               (eq_trans (Hbatch this _ _)
                  (batch_recorded cls this f _ (append_row S []) _ Hsched Hf))).
    erewrite bind_returns; cycle 1.
    { apply gains_by_index; [|exact Hlen]. rewrite !length_map. reflexivity. }
    cbn [mret M_ret]. rewrite !map_map, <- app_assoc.
    cbn [app]. do 3 f_equal.
    apply map_ext. intros i. rewrite (map_nth (append_row S)). reflexivity.
Qed.

End CountingInherited.

(** * Further properties of the header's bodies *)

Section MonadFurther.
Context {World : Type}.

#[local] Abbreviation M := (M World).

Lemma bind_undefined {A B : Type} (m : M A) (k : A -> M B) w w' :
  m w = (Undefined, w') -> (x ← m; k x) w = (Undefined, w').
Proof. intros H. unfold mbind, M_bind. rewrite H. reflexivity. Qed.

Lemma bind_loops {A B : Type} (m : M A) (k : A -> M B) w w' :
  m w = (Loops, w') -> (x ← m; k x) w = (Loops, w').
Proof. intros H. unfold mbind, M_bind. rewrite H. reflexivity. Qed.

(** What a bind that returns went through. *)
Lemma bind_returned {A B : Type} (m : M A) (k : A -> M B) w b w' :
  (x ← m; k x) w = (Returns b, w') ->
  exists a w1, m w = (Returns a, w1) /\ k a w1 = (Returns b, w').
Proof.
  unfold mbind, M_bind. destruct (m w) as [[a|e| | |] w1]; intros H;
    try discriminate H.
  exists a, w1. split; [reflexivity | exact H].
Qed.

(** What a structured block went through: it returned, or broke a
    requirement, as the block did; no exception leaves it. *)
Lemma must_not_throw_returned {A : Type} (block : M A) w a w' :
  must_not_throw block w = (Returns a, w') -> block w = (Returns a, w').
Proof.
  unfold must_not_throw. destruct (block w) as [[a0|e| | |] w1]; intros H;
    try discriminate H. exact H.
Qed.

Lemma must_not_throw_undefined_inv {A : Type} (block : M A) w w' :
  must_not_throw block w = (Undefined, w') -> block w = (Undefined, w').
Proof.
  unfold must_not_throw. destruct (block w) as [[a0|e| | |] w1]; intros H;
    try discriminate H. exact H.
Qed.

Lemma must_not_throw_never_throws {A : Type} (block : M A) w e w' :
  must_not_throw block w <> (Throws e, w').
Proof.
  unfold must_not_throw. destruct (block w) as [[a0|e0| | |] w1];
    discriminate.
Qed.

(** A property of the loop variables that every returning iteration keeps
    holds when the loop returns. *)
Lemma for_each_keeps {I A : Type} (P : A -> Prop) (body : I -> A -> M A) :
  (forall i a w a' w', body i a w = (Returns a', w') -> P a -> P a') ->
  forall l a w a' w',
    for_each l body a w = (Returns a', w') -> P a -> P a'.
Proof.
  intros Hbody. induction l as [|i l IH]; intros a w a' w' Hrun Ha.
  - cbn in Hrun. injection Hrun as <- _. exact Ha.
  - cbn [for_each] in Hrun.
    apply bind_returned in Hrun as (a1 & w1 & H1 & Hrest).
    eapply IH; [exact Hrest|]. eapply Hbody; eassumption.
Qed.

Lemma for_uint_keeps {A : Type} (P : A -> Prop) (body : Z -> A -> M A) :
  (forall i a w a' w', body i a w = (Returns a', w') -> P a -> P a') ->
  forall fuel i n a w a' w',
    for_uint fuel i n body a w = (Returns a', w') -> P a -> P a'.
Proof.
  intros Hbody. induction fuel as [|fuel IH]; intros i n a w a' w' Hrun Ha;
    cbn [for_uint] in Hrun; destruct (i <? n)%Z.
  - discriminate Hrun.
  - injection Hrun as <- _. exact Ha.
  - apply bind_returned in Hrun as (a1 & w1 & H1 & Hrest).
    eapply IH; [exact Hrest|]. eapply Hbody; eassumption.
  - injection Hrun as <- _. exact Ha.
Qed.

Lemma store_at_returned {A : Type} (v : list A) i x (w : World) v' w' :
  store_at v i x w = (Returns v', w') -> length v' = length v.
Proof.
  unfold store_at. destruct (i <? length v); intros H; [|discriminate H].
  injection H as <- _. apply length_insert.
Qed.

(** While its counter stays below a bound it can never reach, with a body
    that always returns and keeps [P], the [unsigned int] loop is still
    running whatever number of iterations is followed. *)
Lemma for_uint_never_ends {A : Type} (P : A -> Prop) (body : Z -> A -> M A)
  (n : Z) (w : World) :
  (UINT_MAX < n)%Z ->
  (forall i a, (0 <= i <= UINT_MAX)%Z -> P a ->
     exists a', body i a w = (Returns a', w) /\ P a') ->
  forall fuel i a, (0 <= i <= UINT_MAX)%Z -> P a ->
    for_uint fuel i n body a w = (Loops, w).
Proof.
  intros Hn Hbody. induction fuel as [|fuel IH]; intros i a Hi Ha;
    cbn [for_uint]; destruct (Z.ltb_spec i n) as [_|Hge]; try lia.
  - reflexivity.
  - destruct (Hbody i a Hi Ha) as (a' & Hrun & Ha').
    rewrite (bind_returns _ _ _ _ _ Hrun). apply IH; [|exact Ha'].
    unfold uint_incr, UINT_MAX in *.
    pose proof (Z.mod_pos_bound (i + 1) (2 ^ 32) ltac:(lia)). lia.
Qed.

(** Where the exception of a bind comes from. *)
Lemma bind_thrown {A B : Type} (m : M A) (k : A -> M B) w e w' :
  (x ← m; k x) w = (Throws e, w') ->
  m w = (Throws e, w')
  \/ exists a w1, m w = (Returns a, w1) /\ k a w1 = (Throws e, w').
Proof.
  unfold mbind, M_bind. destruct (m w) as [[a|e0| | |] w1]; intros H;
    try discriminate H.
  - right. exists a, w1. split; [reflexivity | exact H].
  - left. injection H as -> ->. reflexivity.
Qed.

Lemma for_each_thrown {I A : Type} (body : I -> A -> M A) e w' :
  forall l a w,
    for_each l body a w = (Throws e, w') ->
    exists i a0 w0, In i l /\ body i a0 w0 = (Throws e, w').
Proof.
  induction l as [|i l IH]; intros a w H; cbn [for_each] in H.
  - discriminate H.
  - apply bind_thrown in H as [H|(a1 & w1 & _ & H)].
    + exists i, a, w. split; [left; reflexivity | exact H].
    + destruct (IH _ _ H) as (j & a0 & w0 & Hj & Hthrow).
      exists j, a0, w0. split; [right; exact Hj | exact Hthrow].
Qed.

Lemma for_uint_thrown {A : Type} (body : Z -> A -> M A) e w' :
  forall fuel i n a w,
    for_uint fuel i n body a w = (Throws e, w') ->
    exists j a0 w0, body j a0 w0 = (Throws e, w').
Proof.
  induction fuel as [|fuel IH]; intros i n a w H; cbn [for_uint] in H;
    destruct (i <? n)%Z; try discriminate H.
  apply bind_thrown in H as [H|(a1 & w1 & _ & H)].
  - exists i, a, w. exact H.
  - exact (IH _ _ _ _ H).
Qed.

Lemma required_never_throws {A : Type} (o : option A) (w : World) e w' :
  required o w <> (Throws e, w').
Proof. destruct o; discriminate. Qed.

Lemma store_at_never_throws {A : Type} (v : list A) i x (w : World) e w' :
  store_at v i x w <> (Throws e, w').
Proof. unfold store_at. destruct (i <? length v); discriminate. Qed.

(** Where a broken requirement under a bind comes from. *)
Lemma bind_undefined_inv {A B : Type} (m : M A) (k : A -> M B) w w' :
  (x ← m; k x) w = (Undefined, w') ->
  m w = (Undefined, w')
  \/ exists a w1, m w = (Returns a, w1) /\ k a w1 = (Undefined, w').
Proof.
  unfold mbind, M_bind. destruct (m w) as [[a|e0| | |] w1]; intros H;
    try discriminate H.
  - right. exists a, w1. split; [reflexivity | exact H].
  - left. injection H as ->. reflexivity.
Qed.

Lemma for_each_undefined_inv {I A : Type} (P : A -> Prop)
  (body : I -> A -> M A) w' :
  forall l,
    (forall i a w a' w1, In i l -> P a ->
       body i a w = (Returns a', w1) -> P a') ->
    forall a w, P a ->
      for_each l body a w = (Undefined, w') ->
      exists i a0 w0, In i l /\ P a0 /\ body i a0 w0 = (Undefined, w').
Proof.
  induction l as [|i l IH]; intros Hkeep a w Ha H; cbn [for_each] in H.
  - discriminate H.
  - apply bind_undefined_inv in H as [H|(a1 & w1 & H1 & H)].
    + exists i, a, w. split; [left; reflexivity | split; assumption].
    + destruct (IH (fun j b w0 b' w2 Hj => Hkeep j b w0 b' w2 (or_intror Hj))
                  a1 w1 (Hkeep i a w a1 w1 (or_introl eq_refl) Ha H1) H)
        as (j & a0 & w0 & Hj & Ha0 & Hundef).
      exists j, a0, w0. split; [right; exact Hj | split; assumption].
Qed.

End MonadFurther.

Section ExtraFacts.
Context {HostDataType : Type}.
Variable minus : HostDataType -> HostDataType -> HostDataType.
Variable zero : HostDataType.
Variable indeterminate : nat -> nat -> HostDataType.
Context {World : Type}.
Variable hardware_concurrency : Z.
Variable order : operand_order.
Variable omp_schedule : World -> Z -> nat -> list nat.

#[local] Abbreviation MatrixX := (MatrixX HostDataType).
#[local] Abbreviation VectorXRef := (VectorXRef HostDataType).
#[local] Abbreviation M := (M World).
#[local] Abbreviation vtable := (vtable HostDataType World).
#[local] Abbreviation op_S_elem_const := (op_S_elem_const minus indeterminate order).
#[local] Abbreviation op_S_multi_const := (op_S_multi_const zero omp_schedule).
#[local] Abbreviation op_S_multi_elem_const :=
  (op_S_multi_elem_const minus zero indeterminate).
#[local] Abbreviation op_S_elems_const := (op_S_elems_const minus zero indeterminate).
#[local] Abbreviation S_elems_body := (@S_elems_body HostDataType indeterminate World).
#[local] Abbreviation gains_body := (@gains_body HostDataType minus World).
#[local] Abbreviation marginalGains_body :=
  (@marginalGains_body HostDataType minus World).

(** ** Empty inputs *)

Lemma batch_of_nothing (cls : vtable) (this : SubmodularFunction) (w : World) :
  runs_each_iteration_once omp_schedule ->
  op_S_multi_const cls this [] w = (Returns [], w).
Proof.
  intros Hsched. unfold op_S_multi_const, omp_parallel_for.
  unfold mbind at 1, M_bind. cbn [length].
  rewrite (Permutation_nil (Permutation_sym (Hsched w (num_threads this) 0))).
  reflexivity.
Qed.

(** X1. Without any set, batch evaluation returns no utility and the batch
    marginal gain of an element, in a class that keeps the header's batch
    evaluation, returns no gain: neither runs the primitive nor touches the
    world, whatever the element's dimension, as long as the runtime runs
    each iteration once. *)
Theorem X1_no_set (cls : vtable) (this : SubmodularFunction)
  (elem : VectorXRef) (w : World) :
  runs_each_iteration_once omp_schedule ->
  op_S_multi_const cls this [] w = (Returns [], w)
  /\ (inherits_S_multi_const zero omp_schedule cls ->
      op_S_multi_elem_const cls this [] elem w = (Returns [], w)).
Proof.
  intros Hsched. split; [apply batch_of_nothing; exact Hsched|].
  intros Hinherits. unfold op_S_multi_elem_const. cbn [for_each].
  unfold mbind at 1, M_bind, mret at 1, M_ret.
  rewrite (bind_returns _ _ _ _ _
             (eq_trans (Hinherits this [] w) (batch_of_nothing cls this w Hsched))).
  rewrite (bind_returns _ _ _ _ _
             (eq_trans (Hinherits this [] w) (batch_of_nothing cls this w Hsched))).
  reflexivity.
Qed.

(** X2. Without any candidate element, the batch marginal gain of a set, in
    a class that keeps the header's batch evaluation, still runs the
    primitive on [S] once and then returns no gain: it ends as that one call
    ends, exception included. *)
Theorem X2_no_candidate (cls : vtable) (this : SubmodularFunction)
  (S : MatrixX) (w : World) :
  runs_each_iteration_once omp_schedule ->
  inherits_S_multi_const zero omp_schedule cls ->
  op_S_elems_const cls this S [] w
  = (S_funcValue ← call_S_const cls this S; mret []) w.
Proof.
  intros Hsched Hinherits. unfold op_S_elems_const.
  cbn [length replicate for_uint Z.of_nat Z.ltb Z.compare].
  unfold mbind at 1, M_bind, mret at 1, M_ret.
  apply bind_ext. intros S_funcValue w1.
  rewrite (bind_returns _ _ _ _ _
             (eq_trans (Hinherits this [] w1)
                (batch_of_nothing cls this w1 Hsched))).
  reflexivity.
Qed.

(** ** Results have the length of the input *)

Lemma utilities_body_keeps_length (cls : vtable) (this : SubmodularFunction)
  (S_multi : list MatrixX) i (u : list HostDataType) (w : World) u' w' :
  utilities_body cls this S_multi i u w = (Returns u', w') ->
  length u' = length u.
Proof.
  unfold utilities_body. intros H.
  apply bind_returned in H as (S_i & w1 & _ & H).
  apply bind_returned in H as (v & w2 & _ & H).
  exact (store_at_returned _ _ _ _ _ _ H).
Qed.

Lemma marginalGains_body_keeps_length (us us' : list HostDataType) i
  (g : list HostDataType) (w : World) g' w' :
  marginalGains_body us us' i g w = (Returns g', w') -> length g' = length g.
Proof.
  unfold marginalGains_body. intros H.
  apply bind_returned in H as (a & w1 & _ & H).
  apply bind_returned in H as (b & w2 & _ & H).
  exact (store_at_returned _ _ _ _ _ _ H).
Qed.

Lemma gains_body_keeps_length (x : HostDataType) (ys : list HostDataType) i
  (g : list HostDataType) (w : World) g' w' :
  gains_body x ys i g w = (Returns g', w') -> length g' = length g.
Proof.
  unfold gains_body. intros H.
  apply bind_returned in H as (v & w1 & _ & H).
  exact (store_at_returned _ _ _ _ _ _ H).
Qed.

(** X3. Whenever one of the three batch operations returns, its result has
    as many items as it was given sets (batch evaluation, batch marginal
    gain of an element) or elements (batch marginal gain of a set):
    whatever the primitive does, whatever batch evaluation the class puts
    in place of the header's, and in whatever order the iterations run. *)
Theorem X3_result_lengths (cls : vtable) (this : SubmodularFunction)
  (w w' : World) :
  (forall S_multi utilities,
     op_S_multi_const cls this S_multi w = (Returns utilities, w') ->
     length utilities = length S_multi)
  /\ (forall S_multi elem marginalGains,
        op_S_multi_elem_const cls this S_multi elem w
        = (Returns marginalGains, w') ->
        length marginalGains = length S_multi)
  /\ (forall S elems gains,
        op_S_elems_const cls this S elems w = (Returns gains, w') ->
        length gains = length elems).
Proof.
  split; [|split].
  - intros S_multi utilities H. unfold op_S_multi_const in H.
    apply bind_returned in H as (u & w2 & Hloop & H).
    injection H as <- _.
    unfold omp_parallel_for in Hloop. apply must_not_throw_returned in Hloop.
    refine (for_each_keeps (fun u => length u = length S_multi) _ _ _ _ _ _ _
              Hloop (length_replicate _ _)).
    intros i a w0 a' w0' Hbody Ha. rewrite <- Ha.
    exact (utilities_body_keeps_length cls this S_multi _ _ _ _ _ Hbody).
  - intros S_multi elem marginalGains H. unfold op_S_multi_elem_const in H.
    apply bind_returned in H as (S_multi_elem & w1 & _ & H).
    apply bind_returned in H as (us & w2 & _ & H).
    apply bind_returned in H as (us' & w3 & _ & H).
    apply bind_returned in H as (g & w4 & Hloop & H).
    injection H as <- _.
    refine (for_each_keeps (fun u => length u = length S_multi) _ _ _ _ _ _ _
              Hloop (length_replicate _ _)).
    intros i a w0 a' w0' Hbody Ha. rewrite <- Ha.
    exact (marginalGains_body_keeps_length us us' _ _ _ _ _ Hbody).
  - intros S elems gains H. unfold op_S_elems_const in H.
    apply bind_returned in H as (S_elems & w1 & _ & H).
    apply bind_returned in H as (x & w2 & _ & H).
    apply bind_returned in H as (ys & w3 & _ & H).
    apply bind_returned in H as (g & w4 & Hloop & H).
    injection H as <- _.
    refine (for_uint_keeps (fun u => length u = length elems) _ _ _ _ _ _ _ _ _
              Hloop (length_replicate _ _)).
    intros i a w0 a' w0' Hbody Ha. rewrite <- Ha.
    exact (gains_body_keeps_length x ys _ _ _ _ _ Hbody).
Qed.

(** ** A dimension the batch operations do not check *)

Lemma augment_each_mismatch (elem : VectorXRef) (S_multi : list MatrixX)
  (w : World) :
  Exists (fun S => cols S <> size elem) S_multi ->
  forall S_multi_elem,
    for_each S_multi (fun S_elem S_multi_elem =>
        let back := S_elem in
        let back := conservativeResize indeterminate back (rows S_elem + 1) in
        back ← required (row_comma_init back (rows S_elem) (transpose elem));
        mret (S_multi_elem ++ [back])) S_multi_elem w
    = (Undefined, w).
Proof.
  induction S_multi as [|S l IH]; intros Hex acc.
  - inversion Hex.
  - cbn [for_each].
    destruct (Nat.eq_dec (cols S) (size elem)) as [Heq|Hne].
    + erewrite bind_returns; cycle 1.
      { cbv zeta. rewrite resize_then_row. unfold transpose.
        fold (size elem). rewrite <- Heq, Nat.eqb_refl. reflexivity. }
      apply IH. apply Exists_cons in Hex as [Hhead|Htail];
        [contradiction | exact Htail].
    + apply bind_undefined. cbv zeta. rewrite resize_then_row.
      unfold transpose. fold (size elem).
      destruct (Nat.eqb_spec (size elem) (cols S)) as [Heq|_];
        [congruence | reflexivity].
Qed.

(** X4. The batch marginal gain of an element makes no dimension check of
    its own: when the number of columns of some set differs from the
    dimension of the element, the row write of line 124 breaks Eigen's
    requirement while the augmented sets are built, and no behaviour is
    defined from there on; by then the header has thrown nothing, the
    [runtime_error] of the single marginal gain included, and has made no
    evaluation. *)
Theorem X4_sets_unchecked (cls : vtable) (this : SubmodularFunction)
  (S_multi : list MatrixX) (elem : VectorXRef) (w : World) :
  Exists (fun S => cols S <> size elem) S_multi ->
  op_S_multi_elem_const cls this S_multi elem w = (Undefined, w).
Proof.
  intros Hex. unfold op_S_multi_elem_const. cbv zeta.
  apply bind_undefined. apply augment_each_mismatch. exact Hex.
Qed.

(** One iteration of the loop of lines 164-168, after [k] iterations. *)
Lemma S_elems_body_step (S : MatrixX) (elems : list VectorXRef) (w : World)
  k elem m :
  elems !! k = Some elem ->
  S_elems_body S elems (Z.of_nat k)
    (map (append_row S) (take k elems) ++ replicate (Datatypes.S m) S) w
  = (if size elem =? cols S
     then Returns (map (append_row S) (take (Datatypes.S k) elems)
                   ++ replicate m S)
     else Undefined, w).
Proof.
  intros Helem. unfold S_elems_body. rewrite Nat2Z.id.
  pose proof (lookup_lt_Some _ _ _ Helem) as Hk.
  rewrite (bind_returns _ _ _ _ _ (at_index_run _ _ _ _ Helem)).
  erewrite bind_returns; cycle 1.
  { apply at_index_run. rewrite lookup_app_r; rewrite length_map, length_take;
      [|lia]. replace (k - k `min` length elems) with 0 by lia. reflexivity. }
  cbv zeta. rewrite resize_then_row. unfold transpose. fold (size elem).
  destruct (size elem =? cols S).
  - cbn [required]. unfold mbind, M_bind, mret, M_ret.
    rewrite store_at_run
      by (rewrite length_app, length_map, length_take; cbn [length replicate]; lia).
    do 2 f_equal.
    rewrite (take_S_r _ _ _ Helem), map_app. cbn [map].
    rewrite <- app_assoc. cbn [app].
    rewrite insert_app_r_alt; rewrite length_map, length_take; [|lia].
    replace (k - k `min` length elems) with 0 by lia. reflexivity.
  - reflexivity.
Qed.

Lemma augment_by_index_mismatch (S : MatrixX) (elems : list VectorXRef)
  (w : World) :
  forall m i, i + m = length elems ->
    Exists (fun elem => size elem <> cols S) (drop i elems) ->
    for_each (seq i m) (fun j => S_elems_body S elems (Z.of_nat j))
      (map (append_row S) (take i elems) ++ replicate m S) w
    = (Undefined, w).
Proof.
  induction m as [|m IH]; intros i Hi Hex.
  - rewrite drop_ge in Hex by lia. inversion Hex.
  - destruct (lookup_lt_is_Some_2 elems i) as [elem Helem]; [lia|].
    rewrite (drop_S _ _ _ Helem) in Hex. cbn [seq for_each].
    pose proof (S_elems_body_step S elems w i elem m Helem) as Hstep.
    destruct (Nat.eqb_spec (size elem) (cols S)) as [Heq|Hne].
    + rewrite (bind_returns _ _ _ _ _ Hstep). apply IH; [lia|].
      apply Exists_cons in Hex as [Hhead|Htail]; [contradiction | exact Htail].
    + apply (bind_undefined _ _ _ _ Hstep).
Qed.

(** X5. Neither does the batch marginal gain of a set check dimensions: when
    some candidate (of at most [UINT_MAX]) has another dimension than the
    number of columns of [S], the row write of line 167 breaks Eigen's
    requirement while the augmented sets are built, and no behaviour is
    defined from there on; by then the header has thrown nothing and has
    not evaluated [S]. *)
Theorem X5_elements_unchecked (cls : vtable) (this : SubmodularFunction)
  (S : MatrixX) (elems : list VectorXRef) (w : World) :
  Exists (fun elem => size elem <> cols S) elems ->
  (Z.of_nat (length elems) <= UINT_MAX)%Z ->
  op_S_elems_const cls this S elems w = (Undefined, w).
Proof.
  intros Hex Hlen. unfold op_S_elems_const. cbv zeta.
  apply bind_undefined.
  rewrite (for_uint_for_each _ (length elems) Hlen (length elems) 0) by lia.
  rewrite Nat.sub_0_r.
  apply (augment_by_index_mismatch S elems w (length elems) 0);
    [reflexivity | exact Hex].
Qed.

(** ** The counter of the loop over the candidates *)

Lemma rows_conservativeResize (X : MatrixX) (new_rows : nat) :
  rows (conservativeResize indeterminate X new_rows) = new_rows.
Proof.
  unfold rows, conservativeResize. cbn [coeffs].
  rewrite length_app, length_take, length_map, length_seq. unfold rows. lia.
Qed.

Lemma S_elems_body_returns (S : MatrixX) (elems : list VectorXRef)
  (w : World) (i : Z) (S_elems : list MatrixX) :
  Forall (fun elem => size elem = cols S) elems ->
  (0 <= i < Z.of_nat (length elems))%Z ->
  being_augmented S (length elems) S_elems ->
  exists S_elems',
    S_elems_body S elems i S_elems w = (Returns S_elems', w)
    /\ being_augmented S (length elems) S_elems'.
Proof.
  intros Hsize Hi [Hlen Hall].
  destruct (lookup_lt_is_Some_2 elems (Z.to_nat i)) as [elem Helem]; [lia|].
  destruct (lookup_lt_is_Some_2 S_elems (Z.to_nat i)) as [S_i HS_i]; [lia|].
  pose proof (Forall_lookup_1 _ _ _ _ Hsize Helem) as Helem_size.
  pose proof (Forall_lookup_1 _ _ _ _ Hall HS_i) as [Hcols Hrows].
  set (X := conservativeResize indeterminate S_i (rows S + 1)).
  assert (HX : row_comma_init X (rows S) (transpose elem)
               = Some {| cols := cols X;
                         coeffs := <[rows S := transpose elem]> (coeffs X) |}).
  { unfold row_comma_init. unfold X at 1. rewrite rows_conservativeResize.
    unfold transpose. fold (size elem). unfold X at 1. cbn [cols conservativeResize].
    rewrite Helem_size, Hcols, Nat.eqb_refl.
    destruct (Nat.ltb_spec (rows S) (rows S + 1)); [reflexivity | lia]. }
  eexists. split.
  - unfold S_elems_body.
    rewrite (bind_returns _ _ _ _ _ (at_index_run _ _ _ _ Helem)).
    rewrite (bind_returns _ _ _ _ _ (at_index_run _ _ _ _ HS_i)).
    cbv zeta. fold X. rewrite HX. cbn [required].
    unfold mbind, M_bind, mret, M_ret. apply store_at_run. lia.
  - split; [rewrite length_insert; exact Hlen|].
    apply Forall_insert; [exact Hall|].
    split; [exact Hcols|].
    replace (rows {| cols := cols X;
                     coeffs := <[rows S := transpose elem]> (coeffs X) |})
      with (rows S + 1); [lia|].
    unfold rows at 2. cbn [coeffs]. rewrite length_insert.
    symmetry. exact (rows_conservativeResize S_i (rows S + 1)).
Qed.

(** Beyond the range of its counter the loop of lines 164-168 is still
    running after any number of iterations. *)
Lemma augmenting_never_ends (S : MatrixX) (elems : list VectorXRef)
  (w : World) :
  Forall (fun elem => size elem = cols S) elems ->
  (UINT_MAX < Z.of_nat (length elems))%Z ->
  forall fuel,
    for_uint fuel 0 (Z.of_nat (length elems)) (S_elems_body S elems)
      (replicate (length elems) S) w = (Loops, w).
Proof.
  intros Hsize Hlen fuel.
  apply (for_uint_never_ends (being_augmented S (length elems))).
  - exact Hlen.
  - intros i a Hi Ha. apply S_elems_body_returns; [exact Hsize|lia|exact Ha].
  - unfold UINT_MAX. lia.
  - split; [apply length_replicate|].
    apply Forall_replicate. split; [reflexivity | lia].
Qed.

(** X6. The loop of lines 164-168 counts with an [unsigned int]: given more
    than [UINT_MAX] candidates, each of the dimension of [S], the counter is
    back at zero before it reaches their number and the loop is still
    running however many iterations are followed; the batch marginal gain
    of the set never gets to evaluate [S]. *)
Theorem X6_counter_wraps (cls : vtable) (this : SubmodularFunction)
  (S : MatrixX) (elems : list VectorXRef) (w : World) :
  Forall (fun elem => size elem = cols S) elems ->
  (UINT_MAX < Z.of_nat (length elems))%Z ->
  (forall fuel,
     for_uint fuel 0 (Z.of_nat (length elems)) (S_elems_body S elems)
       (replicate (length elems) S) w = (Loops, w))
  /\ op_S_elems_const cls this S elems w = (Loops, w).
Proof.
  intros Hsize Hlen.
  pose proof (augmenting_never_ends S elems w Hsize Hlen) as Hloop.
  split; [exact Hloop|].
  unfold op_S_elems_const. cbv zeta. apply bind_loops. apply Hloop.
Qed.

(** ** Batch evaluations that return another number of utilities *)

(** A loop whose first [m] iterations each write one item. *)
Lemma for_each_fill (body : nat -> list HostDataType -> M (list HostDataType))
  (h : nat -> HostDataType) (N m : nat) (w : World) :
  m <= N ->
  (forall i acc, i < m -> length acc = N ->
     body i acc w = (Returns (<[i := h i]> acc), w)) ->
  for_each (seq 0 m) body (replicate N zero) w
  = (Returns (map h (seq 0 m) ++ replicate (N - m) zero), w).
Proof.
  intros Hm Hbody.
  destruct (for_each_invariant
    (fun k acc => acc = map h (seq 0 k) ++ replicate (N - k) zero)
    (seq 0 m) body w) with (a := replicate N zero) as (acc & Hrun & Hinv).
  - intros k i acc Hk ->. apply lookup_seq in Hk as [-> Hk]. cbn [Nat.add].
    eexists. split.
    + apply Hbody; [exact Hk|].
      rewrite length_app, length_map, length_seq, length_replicate. lia.
    + rewrite seq_S, map_app. cbn [map Nat.add]. rewrite <- app_assoc.
      cbn [app]. rewrite insert_app_r_alt; rewrite length_map, length_seq; [|lia].
      rewrite Nat.sub_diag.
      replace (N - k) with (Datatypes.S (N - Datatypes.S k)) by lia.
      reflexivity.
  - cbn [seq map app]. rewrite Nat.sub_0_r. reflexivity.
  - rewrite Hrun. rewrite length_seq in Hinv. rewrite Hinv. reflexivity.
Qed.

(** The same loop, asked for more iterations than succeed. *)
Lemma for_each_fill_fails
  (body : nat -> list HostDataType -> M (list HostDataType))
  (h : nat -> HostDataType) (N m L : nat) (w : World) :
  m <= N -> m < L ->
  (forall i acc, i < m -> length acc = N ->
     body i acc w = (Returns (<[i := h i]> acc), w)) ->
  (forall acc, length acc = N -> body m acc w = (Undefined, w)) ->
  for_each (seq 0 L) body (replicate N zero) w = (Undefined, w).
Proof.
  intros Hm HL Hbody Hfail.
  replace L with (m + Datatypes.S (L - Datatypes.S m)) by lia.
  rewrite seq_app, for_each_app.
  rewrite (bind_returns _ _ _ _ _ (for_each_fill body h N m w Hm Hbody)).
  cbn [seq for_each Nat.add]. apply bind_undefined. apply Hfail.
  rewrite length_app, length_map, length_seq, length_replicate. lia.
Qed.

Lemma marginalGains_body_writes (us us' : list HostDataType) (N i : nat)
  (acc : list HostDataType) (w : World) :
  i < length us -> i < length us' -> i < N -> length acc = N ->
  marginalGains_body us us' i acc w
  = (Returns (<[i := minus (nth i us' zero) (nth i us zero)]> acc), w).
Proof.
  intros Hus Hus' HN Hacc. unfold marginalGains_body.
  destruct (lookup_lt_is_Some_2 us i Hus) as [b Hb].
  destruct (lookup_lt_is_Some_2 us' i Hus') as [a Ha].
  rewrite (bind_returns _ _ _ _ _ (at_index_run _ _ _ _ Ha)).
  rewrite (bind_returns _ _ _ _ _ (at_index_run _ _ _ _ Hb)).
  rewrite (nth_lookup_Some _ _ zero _ Ha), (nth_lookup_Some _ _ zero _ Hb).
  apply store_at_run. lia.
Qed.

Lemma zip_with_by_index (us us' : list HostDataType) :
  length us <= length us' ->
  map (fun i => minus (nth i us' zero) (nth i us zero)) (seq 0 (length us))
  = zip_with minus us' us.
Proof.
  intros Hle. apply list_eq. intros i.
  rewrite lookup_map_list, lookup_zip_with.
  destruct (Nat.lt_ge_cases i (length us)) as [Hlt|Hge].
  - rewrite lookup_seq_lt by exact Hlt. cbn [option_map].
    destruct (lookup_lt_is_Some_2 us i Hlt) as [b Hb].
    destruct (lookup_lt_is_Some_2 us' i) as [a Ha]; [lia|].
    rewrite Ha, Hb. cbn.
    rewrite (nth_lookup_Some _ _ zero _ Ha), (nth_lookup_Some _ _ zero _ Hb).
    reflexivity.
  - rewrite lookup_seq_ge by exact Hge. cbn [option_map].
    rewrite (lookup_ge_None_2 us i Hge).
    destruct (us' !! i); reflexivity.
Qed.

(** X7. The batch marginal gain of an element sizes its result by the sets
    and its loop by what batch evaluation returned for them (lines 133 and
    135). When a class's batch evaluation returns [utilityS_multi] for the
    sets and [utilityS_multi_elem] for the augmented sets, the gains are the
    differences item by item, followed by zeros up to the number of sets,
    provided the first list is no longer than the second nor than the sets;
    otherwise the loop reads or writes outside a vector. *)
Theorem X7_utilities_of_another_length (cls : vtable)
  (this : SubmodularFunction) (S_multi : list MatrixX) (elem : VectorXRef)
  (w w1 w2 : World) (utilityS_multi utilityS_multi_elem : list HostDataType) :
  Forall (fun S => cols S = size elem) S_multi ->
  call_S_multi_const cls this S_multi w = (Returns utilityS_multi, w1) ->
  call_S_multi_const cls this (map (fun S => append_row S elem) S_multi) w1
  = (Returns utilityS_multi_elem, w2) ->
  op_S_multi_elem_const cls this S_multi elem w
  = (if (length utilityS_multi <=? length utilityS_multi_elem)
        && (length utilityS_multi <=? length S_multi)
     then Returns (zip_with minus utilityS_multi_elem utilityS_multi
                   ++ replicate (length S_multi - length utilityS_multi) zero)
     else Undefined, w2).
Proof.
  intros Hcols Hus Hus'.
  rewrite (op_S_multi_elem_const_run minus zero indeterminate) by exact Hcols.
  rewrite (bind_returns _ _ _ _ _ Hus), (bind_returns _ _ _ _ _ Hus').
  set (us := utilityS_multi) in *. set (us' := utilityS_multi_elem) in *.
  set (N := length S_multi).
  change (fun (i : nat) (marginalGains : list HostDataType) =>
            a ← at_index us' i; b ← at_index us i;
            store_at marginalGains i (minus a b))
    with (marginalGains_body us us').
  destruct (Nat.leb_spec (length us) (length us')) as [Hle'|Hgt'];
    [destruct (Nat.leb_spec (length us) N) as [HleN|HgtN]|]; cbn [andb].
  - erewrite bind_returns; cycle 1.
    { apply (for_each_fill _
               (fun i => minus (nth i us' zero) (nth i us zero)) N
               (length us) w2 HleN).
      intros i acc Hi Hacc. apply (marginalGains_body_writes us us' N); lia. }
    unfold mret, M_ret. rewrite zip_with_by_index by exact Hle'. reflexivity.
  - apply bind_undefined.
    apply (for_each_fill_fails _
             (fun i => minus (nth i us' zero) (nth i us zero)) N N
             (length us) w2); [lia|lia| |].
    + intros i acc Hi Hacc. apply (marginalGains_body_writes us us' N); lia.
    + intros acc Hacc. unfold marginalGains_body.
      destruct (lookup_lt_is_Some_2 us N) as [b Hb]; [lia|].
      destruct (lookup_lt_is_Some_2 us' N) as [a Ha]; [lia|].
      rewrite (bind_returns _ _ _ _ _ (at_index_run _ _ _ _ Ha)).
      rewrite (bind_returns _ _ _ _ _ (at_index_run _ _ _ _ Hb)).
      unfold store_at. destruct (Nat.ltb_spec N (length acc)); [lia|reflexivity].
  - apply bind_undefined.
    destruct (Nat.le_gt_cases (length us') N) as [Hle|Hgt].
    + apply (for_each_fill_fails _
               (fun i => minus (nth i us' zero) (nth i us zero)) N
               (length us') (length us) w2); [lia|lia| |].
      * intros i acc Hi Hacc. apply (marginalGains_body_writes us us' N); lia.
      * intros acc Hacc. unfold marginalGains_body.
        apply bind_undefined. unfold at_index.
        rewrite (lookup_ge_None_2 us' (length us')) by lia. reflexivity.
    + apply (for_each_fill_fails _
               (fun i => minus (nth i us' zero) (nth i us zero)) N N
               (length us) w2); [lia|lia| |].
      * intros i acc Hi Hacc. apply (marginalGains_body_writes us us' N); lia.
      * intros acc Hacc. unfold marginalGains_body.
        destruct (lookup_lt_is_Some_2 us N) as [b Hb]; [lia|].
        destruct (lookup_lt_is_Some_2 us' N) as [a Ha]; [lia|].
        rewrite (bind_returns _ _ _ _ _ (at_index_run _ _ _ _ Ha)).
        rewrite (bind_returns _ _ _ _ _ (at_index_run _ _ _ _ Hb)).
        unfold store_at.
        destruct (Nat.ltb_spec N (length acc)); [lia|reflexivity].
Qed.

Lemma gains_body_writes (x : HostDataType) (ys : list HostDataType) (N i : nat)
  (acc : list HostDataType) (w : World) :
  i < length ys -> i < N -> length acc = N ->
  gains_body x ys (Z.of_nat i) acc w
  = (Returns (<[i := minus (nth i ys zero) x]> acc), w).
Proof.
  intros Hys HN Hacc. unfold gains_body. rewrite Nat2Z.id.
  destruct (lookup_lt_is_Some_2 ys i Hys) as [v Hv].
  rewrite (bind_returns _ _ _ _ _ (at_index_run _ _ _ _ Hv)).
  rewrite (nth_lookup_Some _ _ zero _ Hv). apply store_at_run. lia.
Qed.

Lemma map_take_by_index (x : HostDataType) (ys : list HostDataType) (n : nat) :
  n <= length ys ->
  map (fun i => minus (nth i ys zero) x) (seq 0 n)
  = map (fun v => minus v x) (take n ys).
Proof.
  intros Hle. apply list_eq. intros i. rewrite !lookup_map_list.
  destruct (Nat.lt_ge_cases i n) as [Hlt|Hge].
  - rewrite lookup_seq_lt, lookup_take_lt by exact Hlt. cbn [option_map Nat.add].
    destruct (lookup_lt_is_Some_2 ys i) as [v Hv]; [lia|].
    rewrite Hv, (nth_lookup_Some _ _ zero _ Hv). reflexivity.
  - rewrite lookup_seq_ge, lookup_take_ge by exact Hge. reflexivity.
Qed.

(** X8. The batch marginal gain of a set reads one utility per candidate
    from what batch evaluation returned (line 182). When the primitive
    returns [S_funcValue] for [S] and a class's batch evaluation returns
    [S_elems_funcValue] for the augmented sets, the gains are the first [M]
    of these utilities, each minus [S_funcValue], provided there are at
    least [M]; with fewer, the loop reads outside the vector. [M] is at most
    [UINT_MAX] and the candidates have the dimension of [S]. *)
Theorem X8_utilities_for_the_candidates (cls : vtable)
  (this : SubmodularFunction) (S : MatrixX) (elems : list VectorXRef)
  (w w1 w2 : World) (S_funcValue : HostDataType)
  (S_elems_funcValue : list HostDataType) :
  Forall (fun elem => size elem = cols S) elems ->
  (Z.of_nat (length elems) <= UINT_MAX)%Z ->
  call_S_const cls this S w = (Returns S_funcValue, w1) ->
  call_S_multi_const cls this (map (append_row S) elems) w1
  = (Returns S_elems_funcValue, w2) ->
  op_S_elems_const cls this S elems w
  = (if length elems <=? length S_elems_funcValue
     then Returns (map (fun v => minus v S_funcValue)
                     (take (length elems) S_elems_funcValue))
     else Undefined, w2).
Proof.
  intros Hsize Hlen Hx Hys.
  rewrite (op_S_elems_const_run minus zero indeterminate) by assumption.
  rewrite (bind_returns _ _ _ _ _ Hx), (bind_returns _ _ _ _ _ Hys).
  set (x := S_funcValue) in *. set (ys := S_elems_funcValue) in *.
  set (n := length elems) in *.
  change (fun (i : Z) (gains : list HostDataType) =>
            v ← at_index ys (Z.to_nat i);
            store_at gains (Z.to_nat i) (minus v x))
    with (gains_body x ys).
  destruct (Nat.leb_spec n (length ys)) as [Hle|Hgt].
  - erewrite bind_returns; cycle 1.
    { rewrite (for_uint_for_each _ n Hlen n 0) by lia. rewrite Nat.sub_0_r.
      apply (for_each_fill (fun j => gains_body x ys (Z.of_nat j))
               (fun i => minus (nth i ys zero) x) n n w2 (le_n n)).
      intros i acc Hi Hacc. apply (gains_body_writes x ys n); lia. }
    unfold mret, M_ret. rewrite Nat.sub_diag. cbn [replicate].
    rewrite app_nil_r, map_take_by_index by exact Hle. reflexivity.
  - apply bind_undefined.
    rewrite (for_uint_for_each _ n Hlen n 0) by lia. rewrite Nat.sub_0_r.
    apply (for_each_fill_fails (fun j => gains_body x ys (Z.of_nat j))
             (fun i => minus (nth i ys zero) x) n (length ys) n w2); [lia|lia| |].
    + intros i acc Hi Hacc. apply (gains_body_writes x ys n); lia.
    + intros acc Hacc. unfold gains_body. rewrite Nat2Z.id.
      apply bind_undefined. unfold at_index.
      rewrite (lookup_ge_None_2 ys (length ys)) by lia. reflexivity.
Qed.

(** ** The worker count read back and set again *)

(** What the worker count of an object can be. *)
Lemma constructed_worker_count (this : SubmodularFunction) :
  constructed hardware_concurrency this ->
  (1 <= _workerCount this <= INT_MAX)%Z
  \/ (_workerCount this = hardware_concurrency /\ 0 < hardware_concurrency)%Z
  \/ _workerCount this = 1%Z.
Proof.
  assert (Hset : forall n o, is_int n ->
    let this' := setWorkerCount hardware_concurrency n o in
    (1 <= _workerCount this' <= INT_MAX)%Z
    \/ (_workerCount this' = hardware_concurrency /\ 0 < hardware_concurrency)%Z
    \/ _workerCount this' = 1%Z).
  { intros n o [Hmin Hmax]. unfold INT_MIN, INT_MAX in *. cbv zeta.
    unfold setWorkerCount, to_unsigned.
    destruct (Z.geb_spec n 1) as [Hge|Hlt]; cbn [_workerCount].
    - left. rewrite Z.mod_small; lia.
    - destruct (Z.gtb_spec hardware_concurrency 0); [right; left; lia | auto]. }
  intros Hthis. destruct Hthis as [|n Hn|n o Hn _].
  - apply Hset. unfold is_int, INT_MIN, INT_MAX. cbn. lia.
  - apply Hset. exact Hn.
  - apply Hset. exact Hn.
Qed.

(** X9. On a platform whose hardware concurrency fits an [unsigned int],
    the worker count of every object built by the constructor and updated
    by [setWorkerCount] fits an [unsigned int] too, and passing what
    [getWorkerCount] returns back to [setWorkerCount], converted to its
    [int] parameter, leaves the object as it is: also when the count is a
    hardware concurrency above [INT_MAX], which arrives negative and is
    resolved again. *)
Theorem X9_worker_count_round_trip (this : SubmodularFunction) :
  constructed hardware_concurrency this ->
  (hardware_concurrency <= UINT_MAX)%Z ->
  (1 <= getWorkerCount this <= UINT_MAX)%Z
  /\ setWorkerCount hardware_concurrency (to_int (getWorkerCount this)) this
     = this.
Proof.
  intros Hthis Hhw. pose proof (constructed_worker_count this Hthis) as Hc.
  destruct this as [c]. unfold getWorkerCount in *. cbn [_workerCount] in *.
  unfold INT_MAX, UINT_MAX in *. split; [lia|].
  unfold setWorkerCount, to_int, to_unsigned, INT_MAX.
  destruct (Z.leb_spec c 2147483647) as [Hle|Hgt].
  - destruct (Z.geb_spec c 1) as [Hge|Hlt].
    + rewrite Z.mod_small by lia. reflexivity.
    + lia.
  - destruct (Z.geb_spec (c - 2 ^ 32) 1) as [Hge|Hlt]; [lia|].
    destruct (Z.gtb_spec hardware_concurrency 0) as [Hpos|Hnpos]; [|lia].
    f_equal. lia.
Qed.

(** ** Where exceptions come from *)

Lemma augmenting_never_throws (S_elem : MatrixX) (n i : nat)
  (elem : VectorXRef) (k : MatrixX -> M (list MatrixX)) (w : World) e w' :
  (forall X w0, k X w0 <> (Throws e, w')) ->
  (back ← required (row_comma_init
                      (conservativeResize indeterminate S_elem n) i
                      (transpose elem));
   k back) w <> (Throws e, w').
Proof.
  intros Hk H. apply bind_thrown in H as [H|(X & w1 & _ & H)].
  - exact (required_never_throws _ _ _ _ H).
  - exact (Hk _ _ H).
Qed.

(** X15. An exception that leaves a const wrapper of the header was thrown by
    a call the wrapper made through the object, as it is, or is the
    dimension error of the marginal gain: the marginal gain throws its own
    error on a mismatch or what the primitive threw on [S] or on the
    augmented set; batch evaluation throws at most what the primitive threw
    on one of the sets (with its loop an OpenMP structured block, nothing
    at all); the two batch marginal gains throw what the primitive or batch
    evaluation threw. *)
Theorem X15_no_exception_of_its_own (cls : vtable)
  (this : SubmodularFunction) (e : exception) (w w' : World) :
  (forall S elem,
     op_S_elem_const cls this S elem w = (Throws e, w') ->
     (cols S <> size elem
      /\ e = runtime_error (mismatch_message (Z.of_nat (cols S))
                              (Z.of_nat (size elem))))
     \/ exists S' w0,
          (S' = S \/ S' = append_row S elem)
          /\ call_S_const cls this S' w0 = (Throws e, w'))
  /\ (forall S_multi,
        op_S_multi_const cls this S_multi w = (Throws e, w') ->
        exists S_i w0,
          In S_i S_multi /\ call_S_const cls this S_i w0 = (Throws e, w'))
  /\ (forall S_multi elem,
        op_S_multi_elem_const cls this S_multi elem w = (Throws e, w') ->
        exists sets w0, call_S_multi_const cls this sets w0 = (Throws e, w'))
  /\ (forall S elems,
        op_S_elems_const cls this S elems w = (Throws e, w') ->
        (exists w0, call_S_const cls this S w0 = (Throws e, w'))
        \/ exists sets w0,
             call_S_multi_const cls this sets w0 = (Throws e, w')).
Proof.
  split; [|split; [|split]].
  - intros S elem H. unfold op_S_elem_const in H.
    destruct (Nat.eqb_spec (cols S) (size elem)) as [Heq|Hne].
    + right. cbv zeta in H. rewrite resize_then_row in H.
      unfold transpose in H. fold (size elem) in H.
      rewrite <- Heq, Nat.eqb_refl in H. cbn [required] in H.
      unfold mbind at 1, M_bind, mret at 1, M_ret in H.
      unfold minus_calls in H.
      destruct order;
        apply bind_thrown in H as [H|(x & w1 & _ & H)];
        try (eexists _, _; split; [|exact H]; auto; fail);
        apply bind_thrown in H as [H|(y & w2 & _ & H)];
        try (eexists _, _; split; [|exact H]; auto; fail);
        discriminate H.
    + left. split; [exact Hne|]. injection H as <- _. reflexivity.
  - intros S_multi H. exfalso. unfold op_S_multi_const in H.
    apply bind_thrown in H as [H|(u & w2 & _ & H)]; [|discriminate H].
    unfold omp_parallel_for in H.
    exact (must_not_throw_never_throws _ _ _ _ H).
  - intros S_multi elem H. unfold op_S_multi_elem_const in H.
    apply bind_thrown in H as [H|(S_multi_elem & w1 & _ & H)].
    { exfalso. apply for_each_thrown in H as (S_elem & acc & w0 & _ & H).
      revert H. apply augmenting_never_throws. discriminate. }
    apply bind_thrown in H as [H|(us & w2 & _ & H)]; [eauto|].
    apply bind_thrown in H as [H|(us' & w3 & _ & H)]; [eauto|].
    exfalso.
    apply bind_thrown in H as [H|(g & w4 & _ & H)]; [|discriminate H].
    apply for_each_thrown in H as (i & acc & w0 & _ & H).
    apply bind_thrown in H as [H|(a & w5 & _ & H)];
      [exact (required_never_throws _ _ _ _ H)|].
    apply bind_thrown in H as [H|(b & w6 & _ & H)];
      [exact (required_never_throws _ _ _ _ H)|].
    exact (store_at_never_throws _ _ _ _ _ _ H).
  - intros S elems H. unfold op_S_elems_const in H.
    apply bind_thrown in H as [H|(S_elems & w1 & _ & H)].
    { exfalso. apply for_uint_thrown in H as (i & acc & w0 & H).
      apply bind_thrown in H as [H|(elem & w2 & _ & H)];
        [exact (required_never_throws _ _ _ _ H)|].
      apply bind_thrown in H as [H|(S_i & w3 & _ & H)];
        [exact (required_never_throws _ _ _ _ H)|].
      revert H. apply augmenting_never_throws.
      intros X w4. apply store_at_never_throws. }
    apply bind_thrown in H as [H|(x & w2 & _ & H)]; [eauto|].
    apply bind_thrown in H as [H|(ys & w3 & _ & H)]; [eauto|].
    exfalso.
    apply bind_thrown in H as [H|(g & w4 & _ & H)]; [|discriminate H].
    apply for_uint_thrown in H as (i & acc & w0 & H).
    apply bind_thrown in H as [H|(v & w5 & _ & H)];
      [exact (required_never_throws _ _ _ _ H)|].
    exact (store_at_never_throws _ _ _ _ _ _ H).
Qed.

(** ** Vectors and rows stay within bounds *)

Lemma batch_undefined_inv (cls : vtable) (this : SubmodularFunction)
  (S_multi : list MatrixX) (w w' : World) :
  runs_each_iteration_once omp_schedule ->
  op_S_multi_const cls this S_multi w = (Undefined, w') ->
  exists S_i w0,
    In S_i S_multi /\ call_S_const cls this S_i w0 = (Undefined, w').
Proof.
  intros Hsched H. unfold op_S_multi_const in H.
  apply bind_undefined_inv in H as [H|(u & w2 & _ & H)]; [|discriminate H].
  unfold omp_parallel_for in H. apply must_not_throw_undefined_inv in H.
  apply (for_each_undefined_inv (fun u => length u = length S_multi)) in H
    as (i & u & w0 & Hi & Hu & H).
  - rewrite <- list_elem_of_In, (Hsched w _ _), elem_of_seq in Hi.
    destruct (lookup_lt_is_Some_2 S_multi i) as [S_i HS_i]; [lia|].
    rewrite (bind_returns _ _ _ _ _ (at_index_run _ _ _ _ HS_i)) in H.
    apply bind_undefined_inv in H as [H|(v & w3 & _ & H)].
    + exists S_i, w0. split; [|exact H].
      apply list_elem_of_In, list_elem_of_lookup. eauto.
    + rewrite store_at_run in H by lia. discriminate H.
  - intros i a w0 a' w1 _ Ha Hbody. rewrite <- Ha.
    exact (utilities_body_keeps_length cls this S_multi _ _ _ _ _ Hbody).
  - apply length_replicate.
Qed.

Lemma batch_returned_length (cls : vtable) (this : SubmodularFunction)
  (S_multi : list MatrixX) (w w' : World) utilities :
  op_S_multi_const cls this S_multi w = (Returns utilities, w') ->
  length utilities = length S_multi.
Proof.
  intros H. unfold op_S_multi_const in H.
  apply bind_returned in H as (u & w2 & Hloop & H).
  injection H as <- _.
  unfold omp_parallel_for in Hloop. apply must_not_throw_returned in Hloop.
  refine (for_each_keeps (fun u => length u = length S_multi) _ _ _ _ _ _ _
            Hloop (length_replicate _ _)).
  intros i a w0 a' w0' Hbody Ha. rewrite <- Ha.
  exact (utilities_body_keeps_length cls this S_multi _ _ _ _ _ Hbody).
Qed.

(** X16. While the runtime runs each iteration once, the header's own code
    stays within its vectors and rows on inputs of matching dimensions.
    If the marginal gain or batch evaluation ends with a broken
    requirement, the primitive broke it; the same holds for the two batch
    marginal gains in a class that keeps the header's batch evaluation,
    given sets, or at most [UINT_MAX] candidates, of the right
    dimension. *)
Theorem X16_within_bounds (cls : vtable) (this : SubmodularFunction)
  (w w' : World) :
  runs_each_iteration_once omp_schedule ->
  (forall S elem,
     op_S_elem_const cls this S elem w = (Undefined, w') ->
     exists S' w0, call_S_const cls this S' w0 = (Undefined, w'))
  /\ (forall S_multi,
        op_S_multi_const cls this S_multi w = (Undefined, w') ->
        exists S_i w0,
          In S_i S_multi /\ call_S_const cls this S_i w0 = (Undefined, w'))
  /\ (inherits_S_multi_const zero omp_schedule cls ->
      (forall S_multi elem,
         Forall (fun S => cols S = size elem) S_multi ->
         op_S_multi_elem_const cls this S_multi elem w = (Undefined, w') ->
         exists S' w0, call_S_const cls this S' w0 = (Undefined, w'))
      /\ (forall S elems,
            Forall (fun elem => size elem = cols S) elems ->
            (Z.of_nat (length elems) <= UINT_MAX)%Z ->
            op_S_elems_const cls this S elems w = (Undefined, w') ->
            exists S' w0, call_S_const cls this S' w0 = (Undefined, w'))).
Proof.
  intros Hsched.
  assert (Hbatch : forall sets w0 w1,
            op_S_multi_const cls this sets w0 = (Undefined, w1) ->
            exists S' w2, call_S_const cls this S' w2 = (Undefined, w1)).
  { intros sets w0 w1 H.
    destruct (batch_undefined_inv cls this sets w0 w1 Hsched H)
      as (S_i & w2 & _ & HS_i). eauto. }
  split; [|split; [|intros Hinherits; split]].
  - intros S elem H. unfold op_S_elem_const in H.
    destruct (Nat.eqb_spec (cols S) (size elem)) as [Heq|Hne];
      [|discriminate H].
    cbv zeta in H. rewrite resize_then_row in H.
    unfold transpose in H. fold (size elem) in H.
    rewrite <- Heq, Nat.eqb_refl in H. cbn [required] in H.
    unfold mbind at 1, M_bind, mret at 1, M_ret in H.
    unfold minus_calls in H.
    destruct order;
      apply bind_undefined_inv in H as [H|(x & w1 & _ & H)]; eauto;
      apply bind_undefined_inv in H as [H|(y & w2 & _ & H)]; eauto;
      discriminate H.
  - intros S_multi H. exact (batch_undefined_inv cls this S_multi w w' Hsched H).
  - intros S_multi elem Hcols H.
    rewrite (op_S_multi_elem_const_run minus zero indeterminate) in H
      by exact Hcols.
    apply bind_undefined_inv in H as [H|(us & w1 & Hus & H)].
    { rewrite Hinherits in H. eauto. }
    apply bind_undefined_inv in H as [H|(us' & w2 & Hus' & H)].
    { rewrite Hinherits in H. eauto. }
    exfalso. rewrite Hinherits in Hus, Hus'.
    apply batch_returned_length in Hus, Hus'. rewrite length_map in Hus'.
    rewrite Hus in H.
    erewrite bind_returns in H; [discriminate H|].
    apply (for_each_fill _
             (fun i => minus (nth i us' zero) (nth i us zero))
             (length S_multi) (length S_multi) w2 (le_n _)).
    intros i acc Hi Hacc.
    apply (marginalGains_body_writes us us' (length S_multi)); lia.
  - intros S elems Hsize Hlen H.
    rewrite (op_S_elems_const_run minus zero indeterminate) in H by assumption.
    apply bind_undefined_inv in H as [H|(x & w1 & _ & H)]; [eauto|].
    apply bind_undefined_inv in H as [H|(ys & w2 & Hys & H)].
    { rewrite Hinherits in H. eauto. }
    exfalso. rewrite Hinherits in Hys.
    apply batch_returned_length in Hys. rewrite length_map in Hys.
    erewrite bind_returns in H; [discriminate H|].
    apply (gains_by_index minus zero); assumption.
Qed.

(** ** The non-const primitive *)

(** X10. In a class that implements only the two primitives, nothing the
    header defines reaches the non-const one: the const primitive, the four
    const wrappers and the four non-const wrappers run the same with any
    two non-const primitives. *)
Theorem X10_non_const_primitive_unused
  (evaluate_const evaluate evaluate' :
     SubmodularFunction -> MatrixX -> M HostDataType)
  (this : SubmodularFunction) (w : World) :
  let cls := Derived minus zero indeterminate hardware_concurrency order
               omp_schedule evaluate_const evaluate in
  let cls' := Derived minus zero indeterminate hardware_concurrency order
                omp_schedule evaluate_const evaluate' in
  (forall S, call_S_const cls this S w = call_S_const cls' this S w)
  /\ (forall S elem,
        call_S_elem_const cls this S elem w = call_S_elem_const cls' this S elem w
        /\ call_S_elem cls this S elem w = call_S_elem cls' this S elem w)
  /\ (forall S_multi,
        call_S_multi_const cls this S_multi w
        = call_S_multi_const cls' this S_multi w
        /\ call_S_multi cls this S_multi w = call_S_multi cls' this S_multi w)
  /\ (forall S_multi elem,
        call_S_multi_elem_const cls this S_multi elem w
        = call_S_multi_elem_const cls' this S_multi elem w
        /\ call_S_multi_elem cls this S_multi elem w
           = call_S_multi_elem cls' this S_multi elem w)
  /\ (forall S elems,
        call_S_elems_const cls this S elems w
        = call_S_elems_const cls' this S elems w
        /\ call_S_elems cls this S elems w = call_S_elems cls' this S elems w).
Proof. intros cls cls'. subst cls cls'. repeat split. Qed.

End ExtraFacts.

(** ** How often the primitive runs *)

Section ExtraCounting.
Context {HostDataType : Type}.
Variable minus : HostDataType -> HostDataType -> HostDataType.
Variable zero : HostDataType.
Variable indeterminate : nat -> nat -> HostDataType.
Variable omp_schedule : list (call HostDataType) -> Z -> nat -> list nat.

#[local] Abbreviation MatrixX := (MatrixX HostDataType).
#[local] Abbreviation VectorXRef := (VectorXRef HostDataType).
#[local] Abbreviation vtable := (vtable HostDataType (list (call HostDataType))).

Lemma map_nth_all {A : Type} (l : list A) (d : A) :
  map (fun i => nth i l d) (seq 0 (length l)) = l.
Proof.
  apply list_eq. intros i. rewrite lookup_map_list.
  destruct (Nat.lt_ge_cases i (length l)) as [Hlt|Hge].
  - rewrite lookup_seq_lt by exact Hlt. cbn [option_map Nat.add].
    destruct (lookup_lt_is_Some_2 l i Hlt) as [x Hx].
    rewrite Hx, (nth_lookup_Some _ _ d _ Hx). reflexivity.
  - rewrite lookup_seq_ge by exact Hge.
    rewrite (lookup_ge_None_2 l i Hge). reflexivity.
Qed.

(** Batch evaluation on a recording primitive, the sets named rather than
    their indices. *)
Lemma batch_recorded_sets (cls : vtable) (this : SubmodularFunction)
  (f : MatrixX -> HostDataType) (S_multi : list MatrixX)
  (calls : list (call HostDataType)) :
  runs_each_iteration_once omp_schedule ->
  records_evaluations cls f ->
  exists evaluated_sets,
    Permutation evaluated_sets S_multi
    /\ op_S_multi_const zero omp_schedule cls this S_multi calls
       = (Returns (map f S_multi), calls ++ map evaluated evaluated_sets).
Proof.
  intros Hsched Hf.
  set (d := {| cols := 0; coeffs := [] |} : MatrixX).
  exists (map (fun i => nth i S_multi d)
            (omp_schedule calls (num_threads this) (length S_multi))).
  split.
  - rewrite (Hsched calls (num_threads this) (length S_multi)).
    rewrite map_nth_all. reflexivity.
  - rewrite map_map.
    apply (batch_recorded zero omp_schedule cls this f S_multi d calls Hsched Hf).
Qed.

(** X11. With a primitive that records its calls, batch evaluation of [N]
    sets runs it [N] times, once on each set, in the order the runtime
    picks, and returns the values in the order of the sets. *)
Theorem X11_one_evaluation_per_set (cls : vtable) (this : SubmodularFunction)
  (f : MatrixX -> HostDataType) (S_multi : list MatrixX)
  (calls : list (call HostDataType)) :
  runs_each_iteration_once omp_schedule ->
  records_evaluations cls f ->
  exists evaluated_sets,
    Permutation evaluated_sets S_multi
    /\ length evaluated_sets = length S_multi
    /\ op_S_multi_const zero omp_schedule cls this S_multi calls
       = (Returns (map f S_multi), calls ++ map evaluated evaluated_sets).
Proof.
  intros Hsched Hf.
  destruct (batch_recorded_sets cls this f S_multi calls Hsched Hf)
    as (sets & Hperm & Hrun).
  exists sets. split; [exact Hperm|split; [|exact Hrun]].
  apply Permutation_length. exact Hperm.
Qed.

(** X12. In a class that keeps the header's batch evaluation, with a
    primitive that records its calls, the batch marginal gain of an element
    over [N] sets of its dimension runs the primitive [2N] times: once on
    each set, then once on each augmented set, every set before any
    augmented set. *)
Theorem X12_two_evaluations_per_set (cls : vtable) (this : SubmodularFunction)
  (f : MatrixX -> HostDataType) (S_multi : list MatrixX) (elem : VectorXRef)
  (calls : list (call HostDataType)) :
  runs_each_iteration_once omp_schedule ->
  records_evaluations cls f ->
  inherits_S_multi_const zero omp_schedule cls ->
  Forall (fun S => cols S = size elem) S_multi ->
  exists evaluated_sets evaluated_augmented,
    Permutation evaluated_sets S_multi
    /\ Permutation evaluated_augmented
         (map (fun S => append_row S elem) S_multi)
    /\ op_S_multi_elem_const minus zero indeterminate cls this S_multi elem calls
       = (Returns (map (fun S => minus (f (append_row S elem)) (f S)) S_multi),
          calls ++ map evaluated evaluated_sets
                ++ map evaluated evaluated_augmented).
Proof.
  intros Hsched Hf Hinherits Hcols.
  destruct (batch_recorded_sets cls this f S_multi calls Hsched Hf)
    as (sets & Hperm & Hrun).
  destruct (batch_recorded_sets cls this f
              (map (fun S => append_row S elem) S_multi)
              (calls ++ map evaluated sets) Hsched Hf)
    as (sets' & Hperm' & Hrun').
  exists sets, sets'. split; [exact Hperm|split; [exact Hperm'|]].
  rewrite (op_S_multi_elem_const_run minus zero indeterminate) by exact Hcols.
  rewrite (bind_returns _ _ _ _ _ (eq_trans (Hinherits this _ _) Hrun)).
  rewrite (bind_returns _ _ _ _ _ (eq_trans (Hinherits this _ _) Hrun')).
  erewrite bind_returns; cycle 1.
  { rewrite map_map.
    apply (gains_each minus zero f (fun S => f (append_row S elem)) S_multi). }
  unfold mret, M_ret. rewrite <- app_assoc. reflexivity.
Qed.

(** X13. In a class that keeps the header's batch evaluation, with a
    primitive that records its calls, the batch marginal gain of a set over
    [M] candidates of its dimension (at most [UINT_MAX]) runs the primitive
    [M + 1] times: first on [S], then once on each augmented set, none of
    which is [S]. *)
Theorem X13_one_evaluation_per_candidate (cls : vtable)
  (this : SubmodularFunction) (f : MatrixX -> HostDataType) (S : MatrixX)
  (elems : list VectorXRef) (calls : list (call HostDataType)) :
  runs_each_iteration_once omp_schedule ->
  records_evaluations cls f ->
  inherits_S_multi_const zero omp_schedule cls ->
  Forall (fun elem => size elem = cols S) elems ->
  (Z.of_nat (length elems) <= UINT_MAX)%Z ->
  exists evaluated_augmented,
    Permutation evaluated_augmented (map (append_row S) elems)
    /\ Forall (fun S_elem => S_elem <> S) evaluated_augmented
    /\ op_S_elems_const minus zero indeterminate cls this S elems calls
       = (Returns (map (fun elem => minus (f (append_row S elem)) (f S)) elems),
          calls ++ evaluated S :: map evaluated evaluated_augmented).
Proof.
  intros Hsched Hf Hinherits Hsize Hlen.
  destruct (batch_recorded_sets cls this f (map (append_row S) elems)
              (calls ++ [evaluated S]) Hsched Hf)
    as (sets' & Hperm' & Hrun').
  exists sets'. split; [exact Hperm'|split].
  - rewrite Hperm'. apply Forall_forall. intros S' HS'.
    apply list_elem_of_In, in_map_iff in HS' as (elem & <- & _).
    apply append_row_neq.
  - rewrite (op_S_elems_const_run minus zero indeterminate) by assumption.
    rewrite (bind_returns _ _ _ _ _ (Hf this S calls)).
    rewrite (bind_returns _ _ _ _ _ (eq_trans (Hinherits this _ _) Hrun')).
    erewrite bind_returns; cycle 1.
    { apply (gains_by_index minus zero); [|exact Hlen].
      rewrite !length_map. reflexivity. }
    unfold mret, M_ret. rewrite !map_map, <- app_assoc. reflexivity.
Qed.

End ExtraCounting.

(** ** Coefficients that were never written *)

Section ExtraIndeterminate.
Context {HostDataType : Type}.
Variable minus : HostDataType -> HostDataType -> HostDataType.
Variable zero : HostDataType.
Variable indeterminate indeterminate' : nat -> nat -> HostDataType.
Context {World : Type}.
Variable order : operand_order.

#[local] Abbreviation MatrixX := (MatrixX HostDataType).
#[local] Abbreviation VectorXRef := (VectorXRef HostDataType).
#[local] Abbreviation vtable := (vtable HostDataType World).

(** X14. What the rows added by [conservativeResize] hold before they are
    written never reaches the primitive nor the result: with any two
    contents of unwritten coefficients the marginal gain and the two batch
    marginal gains run the same, on matching and on mismatched dimensions
    (for the candidates of a set, up to [UINT_MAX] of them). *)
Theorem X14_unwritten_never_read (cls : vtable) (this : SubmodularFunction)
  (w : World) :
  (forall S elem,
     op_S_elem_const minus indeterminate order cls this S elem w
     = op_S_elem_const minus indeterminate' order cls this S elem w)
  /\ (forall S_multi elem,
        op_S_multi_elem_const minus zero indeterminate cls this S_multi elem w
        = op_S_multi_elem_const minus zero indeterminate' cls this S_multi
            elem w)
  /\ (forall S elems,
        (Z.of_nat (length elems) <= UINT_MAX)%Z ->
        op_S_elems_const minus zero indeterminate cls this S elems w
        = op_S_elems_const minus zero indeterminate' cls this S elems w).
Proof.
  split; [|split].
  - intros S elem.
    destruct (Nat.eq_dec (cols S) (size elem)) as [Heq|Hne].
    + rewrite !op_S_elem_const_run by exact Heq. reflexivity.
    + unfold op_S_elem_const.
      destruct (Nat.eqb_spec (cols S) (size elem)); [contradiction|reflexivity].
  - intros S_multi elem.
    destruct (Forall_Exists_dec (fun S : MatrixX => cols S = size elem)
                (fun S : MatrixX => cols S <> size elem)
                (fun S => Nat.eq_dec (cols S) (size elem)) S_multi)
      as [Hall|Hex].
    + rewrite !op_S_multi_elem_const_run by exact Hall. reflexivity.
    + unfold op_S_multi_elem_const. cbv zeta.
      rewrite !(bind_undefined _ _ _ _
                  (augment_each_mismatch _ elem S_multi w Hex [])).
      reflexivity.
  - intros S elems Hlen.
    destruct (Forall_Exists_dec (fun elem : VectorXRef => size elem = cols S)
                (fun elem : VectorXRef => size elem <> cols S)
                (fun elem => Nat.eq_dec (size elem) (cols S)) elems)
      as [Hall|Hex].
    + rewrite !op_S_elems_const_run by assumption. reflexivity.
    + unfold op_S_elems_const. cbv zeta.
      assert (Hloop : forall ind,
        for_uint (length elems) 0 (Z.of_nat (length elems))
          (S_elems_body ind S elems) (replicate (length elems) S) w
        = (Undefined, w)).
      { intros ind.
        rewrite (for_uint_for_each _ (length elems) Hlen (length elems) 0)
          by lia.
        rewrite Nat.sub_0_r.
        apply (augment_by_index_mismatch ind S elems w (length elems) 0);
          [reflexivity | exact Hex]. }
      rewrite (bind_undefined _ _ _ _ (Hloop indeterminate)).
      rewrite (bind_undefined _ _ _ _ (Hloop indeterminate')).
      reflexivity.
Qed.

End ExtraIndeterminate.

(** * Concrete runs *)

Lemma ref_schedule_runs_each_iteration_once {World : Type} :
  runs_each_iteration_once (@ref_schedule World).
Proof.
  intros w n count. unfold ref_schedule.
  destruct (n <=? 1)%Z; [reflexivity|]. symmetry. apply Permutation_rev.
Qed.

Lemma ref_class_computes (order : operand_order) (this : SubmodularFunction) :
  computes (ref_class order) this sum_of_entries.
Proof. intros S w. reflexivity. Qed.

Lemma ref_class_inherits_S_multi_const (order : operand_order) :
  inherits_S_multi_const 0%Z ref_schedule (ref_class order).
Proof. apply (Derived_inherits Z.sub). Qed.

(** The spec's scenario: evaluate(S) = 2, evaluate(append(S, e)) = 4,
    marginalGain(S, e) = 2, after two evaluations. *)
Example scenario_evaluate :
  sum_of_entries ref_S = 2%Z /\ sum_of_entries (append_row ref_S ref_e) = 4%Z.
Proof. split; reflexivity. Qed.

Example scenario_marginal_gain (order : operand_order) :
  op_S_elem_const Z.sub ref_indeterminate order (ref_class order)
    (construct ref_hardware_concurrency None) ref_S ref_e 0
  = (Returns 2%Z, 2).
Proof. destruct order; reflexivity. Qed.

(** Three sets come back in the order of the sets, with one worker, with two
    (last iteration first), and with the four of the platform. *)
Example scenario_batch (workerCount : option Z) :
  In workerCount [Some 1%Z; Some 2%Z; None] ->
  op_S_multi_const 0%Z ref_schedule (ref_class left_operand_first)
    (construct ref_hardware_concurrency workerCount)
    [ref_S; append_row ref_S ref_e; ref_S3] 0
  = (Returns [2; 4; 6]%Z, 3).
Proof. intros [<-|[<-|[<-|[]]]]; reflexivity. Qed.

(** With the inherited batch evaluation on four workers, the batch marginal
    gain of two elements evaluates [S] once, then the two augmented sets,
    last first; the gains come back in the order of the elements. *)
Example scenario_record :
  op_S_elems_const Z.sub 0%Z ref_indeterminate ref_recording_class
    (construct ref_hardware_concurrency None) ref_S [ref_e; [2; 3]%Z] []
  = (Returns [2; 5]%Z,
     [evaluated ref_S;
      evaluated (append_row ref_S [2; 3]%Z);
      evaluated (append_row ref_S ref_e)]).
Proof. reflexivity. Qed.

(** With a primitive that gives up on three rows, the batch marginal gain
    evaluates [S], then the last augmented set inside the parallel loop,
    and the program ends there. *)
Example scenario_failure :
  op_S_elems_const Z.sub 0%Z ref_indeterminate
    (ref_fragile_class left_operand_first)
    (construct ref_hardware_concurrency None) ref_S [ref_e; [2; 3]%Z] 0
  = (Terminates, 2).
Proof. reflexivity. Qed.

(** ** Inputs on which the header falls short *)

Lemma ref_too_many_elems_fit :
  Forall (fun elem : VectorXRef Z => size elem = cols ref_S) ref_too_many_elems
  /\ (UINT_MAX < Z.of_nat (length ref_too_many_elems))%Z.
Proof.
  unfold ref_too_many_elems. split.
  - apply Forall_replicate. reflexivity.
  - rewrite length_replicate, Z2Nat.id; unfold UINT_MAX; lia.
Qed.

(** C3. Given 4294967296 candidates of the dimension of [S], in a class
    that keeps the header's batch evaluation and whose primitive computes
    the sum of the entries, the batch marginal gain of the candidates
    returns no gains: the [unsigned int] counter of line 164 is back at
    zero before it reaches their number, and the call never returns. *)
Theorem C3_gains_never_returned :
  runs_each_iteration_once (World := nat) ref_schedule
  /\ inherits_S_multi_const 0%Z ref_schedule (ref_class left_operand_first)
  /\ computes (ref_class left_operand_first) {| _workerCount := 4 |}
       sum_of_entries
  /\ Forall (fun elem : VectorXRef Z => size elem = cols ref_S)
       ref_too_many_elems
  /\ op_S_elems_const Z.sub 0%Z ref_indeterminate
       (ref_class left_operand_first) {| _workerCount := 4 |}
       ref_S ref_too_many_elems 0
     = (Loops, 0).
Proof.
  destruct ref_too_many_elems_fit as [Hsize Hlen].
  split; [|split; [|split; [|split]]].
  - apply ref_schedule_runs_each_iteration_once.
  - apply ref_class_inherits_S_multi_const.
  - apply ref_class_computes.
  - exact Hsize.
  - revert Hsize Hlen. generalize ref_too_many_elems.
    intros elems Hsize Hlen.
    unfold op_S_elems_const. cbv zeta. apply bind_loops.
    exact (augmenting_never_ends ref_indeterminate ref_S elems 0
             Hsize Hlen _).
Qed.

(** C6. Given 4294967296 candidates of the dimension of [S], on the fake
    that records evaluations and batch evaluations, the batch marginal gain
    of the candidates records no call at all: the loop of line 164 never
    ends, and [S] is evaluated not once but never. *)
Theorem C6_S_never_evaluated :
  records_evaluations ref_counting_class sum_of_entries
  /\ records_batches ref_counting_class sum_of_entries
  /\ Forall (fun elem : VectorXRef Z => size elem = cols ref_S)
       ref_too_many_elems
  /\ op_S_elems_const Z.sub 0%Z ref_indeterminate ref_counting_class
       {| _workerCount := 4 |} ref_S ref_too_many_elems []
     = (Loops, []).
Proof.
  destruct ref_too_many_elems_fit as [Hsize Hlen].
  split; [|split; [|split]].
  - intros this S calls. reflexivity.
  - intros this S_multi calls. reflexivity.
  - exact Hsize.
  - revert Hsize Hlen. generalize ref_too_many_elems.
    intros elems Hsize Hlen.
    unfold op_S_elems_const. cbv zeta. apply bind_loops.
    exact (augmenting_never_ends ref_indeterminate ref_S elems []
             Hsize Hlen _).
Qed.

(** C8. With a primitive that throws on sets of three rows, in a class that
    keeps the header's batch evaluation: the exception the primitive throws
    on the one set of a batch does not reach the caller of batch
    evaluation, the program ends inside the parallel loop of lines 91-93;
    and so it does for the two batch marginal gains, whose augmented sets
    are evaluated in that loop. *)
Theorem C8_failure_in_batch_ends_the_program :
  call_S_const (ref_fragile_class left_operand_first) {| _workerCount := 4 |}
    (append_row ref_S ref_e) 0
  = (Throws (thrown 7), 1)
  /\ op_S_multi_const 0%Z ref_schedule (ref_fragile_class left_operand_first)
       {| _workerCount := 4 |} [append_row ref_S ref_e] 0
     = (Terminates, 1)
  /\ op_S_multi_elem_const Z.sub 0%Z ref_indeterminate
       (ref_fragile_class left_operand_first) {| _workerCount := 4 |}
       [ref_S] ref_e 0
     = (Terminates, 2)
  /\ op_S_elems_const Z.sub 0%Z ref_indeterminate
       (ref_fragile_class left_operand_first) {| _workerCount := 4 |}
       ref_S [ref_e] 0
     = (Terminates, 2).
Proof. repeat split. Qed.

(** ** The properties at concrete inputs *)

Lemma C1_witness :
  cols ref_S = size ref_e
  /\ forall w,
       fst (op_S_elem_const Z.sub ref_indeterminate left_operand_first
              (ref_class left_operand_first) {| _workerCount := 4 |}
              ref_S ref_e w)
       = Returns (sum_of_entries (append_row ref_S ref_e) - sum_of_entries ref_S)%Z.
Proof.
  split; [reflexivity|].
  apply (proj2 (C1_marginal_gain Z.sub ref_indeterminate left_operand_first
                  (ref_class left_operand_first) {| _workerCount := 4 |}
                  ref_S ref_e eq_refl) sum_of_entries).
  apply ref_class_computes.
Defined.

Lemma C2_witness :
  exists utilities,
    fst (op_S_multi_const 0%Z ref_schedule (ref_class left_operand_first)
           {| _workerCount := 2 |} [ref_S; append_row ref_S ref_e; ref_S3] 0)
    = Returns utilities
    /\ length utilities = 3
    /\ forall i S_i, [ref_S; append_row ref_S ref_e; ref_S3] !! i = Some S_i ->
         utilities !! i = Some (sum_of_entries S_i).
Proof.
  apply (C2_batch_evaluation 0%Z ref_schedule (ref_class left_operand_first)
           {| _workerCount := 2 |} sum_of_entries
           [ref_S; append_row ref_S ref_e; ref_S3] 0).
  - apply ref_schedule_runs_each_iteration_once.
  - apply ref_class_computes.
Defined.

Lemma X17_witness :
  exists gains,
    fst (op_S_elems_const Z.sub 0%Z ref_indeterminate
           (ref_class left_operand_first) {| _workerCount := 4 |}
           ref_S [ref_e; [2; 3]%Z] 0) = Returns gains
    /\ length gains = 2
    /\ forall j elem, [ref_e; [2; 3]%Z] !! j = Some elem ->
         gains !! j
         = Some (sum_of_entries (append_row ref_S elem) - sum_of_entries ref_S)%Z
         /\ forall w',
              fst (op_S_elem_const Z.sub ref_indeterminate left_operand_first
                     (ref_class left_operand_first) {| _workerCount := 4 |}
                     ref_S elem w')
              = Returns (sum_of_entries (append_row ref_S elem)
                         - sum_of_entries ref_S)%Z.
Proof.
  apply (X17_gains_within_the_counter_range Z.sub 0%Z ref_indeterminate
           left_operand_first
           ref_schedule (ref_class left_operand_first) {| _workerCount := 4 |}
           sum_of_entries ref_S [ref_e; [2; 3]%Z] 0).
  - apply ref_schedule_runs_each_iteration_once.
  - apply ref_class_inherits_S_multi_const.
  - apply ref_class_computes.
  - repeat constructor.
  - vm_compute. discriminate.
Defined.

(** The spec's mismatch: a set of width 3 and an element of width 2. *)
Lemma C4_witness :
  op_S_elem_const Z.sub ref_indeterminate left_operand_first
    (ref_class left_operand_first) {| _workerCount := 4 |} ref_S3 ref_e2 0
  = (Throws (runtime_error
       "SubmodularFunction::operator(): The number of columns in matrix `S` and the number of elements in vector `elem` do not match (3 vs. 2)."),
     0).
Proof.
  apply (proj1 (C4_dimension_mismatch Z.sub ref_indeterminate
                  left_operand_first (ref_class left_operand_first)
                  {| _workerCount := 4 |} ref_S3 ref_e2 0)).
  vm_compute. discriminate.
Defined.

Lemma C5_witness :
  exists marginalGains,
    fst (op_S_multi_elem_const Z.sub 0%Z ref_indeterminate
           (ref_class right_operand_first) {| _workerCount := 4 |}
           [ref_S; append_row ref_S ref_e] ref_e 0) = Returns marginalGains
    /\ length marginalGains = 2
    /\ forall i S_i, [ref_S; append_row ref_S ref_e] !! i = Some S_i ->
         marginalGains !! i
         = Some (sum_of_entries (append_row S_i ref_e) - sum_of_entries S_i)%Z
         /\ forall w',
              fst (op_S_elem_const Z.sub ref_indeterminate right_operand_first
                     (ref_class right_operand_first) {| _workerCount := 4 |}
                     S_i ref_e w')
              = Returns (sum_of_entries (append_row S_i ref_e)
                         - sum_of_entries S_i)%Z.
Proof.
  apply (C5_gains_of_sets Z.sub 0%Z ref_indeterminate right_operand_first
           ref_schedule (ref_class right_operand_first) {| _workerCount := 4 |}
           sum_of_entries [ref_S; append_row ref_S ref_e] ref_e 0).
  - apply ref_schedule_runs_each_iteration_once.
  - apply ref_class_inherits_S_multi_const.
  - apply ref_class_computes.
  - repeat constructor.
Defined.

Lemma X18_witness :
  op_S_elems_const Z.sub 0%Z ref_indeterminate ref_counting_class
    {| _workerCount := 4 |} ref_S [ref_e; [2; 3]%Z] []
  = (Returns [2; 5]%Z,
     [evaluated ref_S;
      evaluated_batch [append_row ref_S ref_e; append_row ref_S [2; 3]%Z]]).
Proof.
  apply (X18_one_evaluation_one_batch Z.sub 0%Z ref_indeterminate
           ref_counting_class {| _workerCount := 4 |} sum_of_entries
           ref_S [ref_e; [2; 3]%Z] []).
  - intros this S calls. reflexivity.
  - intros this S_multi calls. reflexivity.
  - repeat constructor.
  - vm_compute. discriminate.
Defined.

(** The spec's resolution: with four hardware threads, [0] and [-1] give
    [4], and [5] gives [5]. *)
Lemma C7_witness :
  getWorkerCount (setWorkerCount 4 5 {| _workerCount := 1 |}) = 5%Z
  /\ getWorkerCount (setWorkerCount 4 0 {| _workerCount := 1 |}) = 4%Z
  /\ getWorkerCount (setWorkerCount 4 (-1) {| _workerCount := 1 |}) = 4%Z.
Proof.
  assert (H5 : is_int 5) by (unfold is_int, INT_MIN, INT_MAX; lia).
  assert (H0 : is_int 0) by (unfold is_int, INT_MIN, INT_MAX; lia).
  assert (H1 : is_int (-1)) by (unfold is_int, INT_MIN, INT_MAX; lia).
  split; [|split].
  - apply (proj1 (C7_worker_count 4 5 {| _workerCount := 1 |} H5)). lia.
  - apply (proj1 (proj2 (C7_worker_count 4 0 {| _workerCount := 1 |} H0))); lia.
  - apply (proj1 (proj2 (C7_worker_count 4 (-1) {| _workerCount := 1 |} H1)));
      lia.
Defined.

(** The failing call is the first along the schedule: the last augmented
    set. *)
Lemma X19_witness :
  op_S_multi_const 0%Z ref_schedule (ref_fragile_class left_operand_first)
    {| _workerCount := 4 |} [ref_S; append_row ref_S ref_e] 0
  = (Terminates, 1).
Proof.
  apply (proj1 (proj2 (X19_failures_on_their_way_out Z.sub 0%Z ref_indeterminate
                         left_operand_first ref_schedule
                         (ref_fragile_class left_operand_first)
                         {| _workerCount := 4 |} (thrown 7) 0 1))
         [ref_S; append_row ref_S ref_e] [] 1 [0] [0; 0]%Z 0
         (append_row ref_S ref_e)); reflexivity.
Defined.

Lemma C9_witness :
  (1 <= getWorkerCount
          (setWorkerCount 0 (-3) (construct 0 (Some 7%Z))))%Z
  /\ (1 <= num_threads (setWorkerCount 0 (-3) (construct 0 (Some 7%Z))))%Z.
Proof.
  assert (H7 : is_int 7) by (unfold is_int, INT_MIN, INT_MAX; lia).
  assert (H3 : is_int (-3)) by (unfold is_int, INT_MIN, INT_MAX; lia).
  pose proof (C9_worker_count_positive 0
                (setWorkerCount 0 (-3) (construct 0 (Some 7%Z)))
                (constructed_set 0 (-3) _ H3 (constructed_with 0 7 H7)))
    as [Hget Hthreads].
  split; [exact Hget|]. apply Hthreads. unfold INT_MAX. lia.
Defined.

(** ** Concrete runs of the further properties *)

Lemma X1_witness :
  op_S_multi_const 0%Z ref_schedule (ref_class left_operand_first)
    {| _workerCount := 4 |} [] 0 = (Returns [], 0)
  /\ op_S_multi_elem_const Z.sub 0%Z ref_indeterminate
       (ref_class left_operand_first) {| _workerCount := 4 |} [] ref_e2 0
     = (Returns [], 0).
Proof.
  destruct (X1_no_set Z.sub 0%Z ref_indeterminate ref_schedule
              (ref_class left_operand_first) {| _workerCount := 4 |} ref_e2 0
              ref_schedule_runs_each_iteration_once) as [Hbatch Hgain].
  split; [exact Hbatch|].
  apply Hgain. apply ref_class_inherits_S_multi_const.
Defined.

(** Without candidates the fragile primitive still runs on a set of three
    rows, and gives up. *)
Lemma X2_witness :
  op_S_elems_const Z.sub 0%Z ref_indeterminate
    (ref_fragile_class left_operand_first) {| _workerCount := 4 |}
    (append_row ref_S ref_e) [] 0
  = (Throws (thrown 7), 1).
Proof.
  rewrite (X2_no_candidate Z.sub 0%Z ref_indeterminate ref_schedule
             (ref_fragile_class left_operand_first) {| _workerCount := 4 |}
             (append_row ref_S ref_e) 0
             ref_schedule_runs_each_iteration_once).
  - reflexivity.
  - intros this S_multi w. reflexivity.
Defined.

Lemma X4_witness :
  op_S_multi_elem_const Z.sub 0%Z ref_indeterminate
    (ref_class left_operand_first) {| _workerCount := 4 |}
    [ref_S; ref_S3] ref_e 0
  = (Undefined, 0).
Proof.
  apply (X4_sets_unchecked Z.sub 0%Z ref_indeterminate
           (ref_class left_operand_first) {| _workerCount := 4 |}
           [ref_S; ref_S3] ref_e 0).
  apply Exists_cons_tl, Exists_cons_hd. vm_compute. discriminate.
Defined.

Lemma X5_witness :
  op_S_elems_const Z.sub 0%Z ref_indeterminate
    (ref_class left_operand_first) {| _workerCount := 4 |}
    ref_S [ref_e; [1; 2; 3]%Z] 0
  = (Undefined, 0).
Proof.
  apply (X5_elements_unchecked Z.sub 0%Z ref_indeterminate
           (ref_class left_operand_first) {| _workerCount := 4 |}
           ref_S [ref_e; [1; 2; 3]%Z] 0).
  - apply Exists_cons_tl, Exists_cons_hd. vm_compute. discriminate.
  - vm_compute. discriminate.
Defined.

(** 4294967296 candidates without coefficients for a set without columns. *)
Lemma X6_witness :
  op_S_elems_const Z.sub 0%Z ref_indeterminate
    (ref_class left_operand_first) {| _workerCount := 4 |}
    ref_S0 (replicate (Z.to_nat 4294967296) []) 0
  = (Loops, 0).
Proof.
  assert (Hsize : Forall (fun elem : VectorXRef Z => size elem = cols ref_S0)
                    (replicate (Z.to_nat 4294967296) [])).
  { apply Forall_replicate. reflexivity. }
  assert (Hlen : (UINT_MAX
                  < Z.of_nat (length (replicate (A := VectorXRef Z)
                                        (Z.to_nat 4294967296) [])))%Z).
  { rewrite length_replicate, Z2Nat.id; unfold UINT_MAX; lia. }
  exact (proj2 (X6_counter_wraps Z.sub 0%Z ref_indeterminate
                  (ref_class left_operand_first) {| _workerCount := 4 |}
                  ref_S0 (replicate (Z.to_nat 4294967296) []) 0 Hsize Hlen)).
Defined.

(** A batch evaluation that returns one utility for two sets: the second
    gain stays the zero it was resized to. *)
Lemma X7_witness :
  op_S_multi_elem_const Z.sub 0%Z ref_indeterminate ref_short_batch_class
    {| _workerCount := 4 |} [ref_S; append_row ref_S ref_e] ref_e []
  = (Returns [2; 0]%Z,
     [evaluated_batch [ref_S; append_row ref_S ref_e];
      evaluated_batch [append_row ref_S ref_e;
                       append_row (append_row ref_S ref_e) ref_e]]).
Proof.
  apply (X7_utilities_of_another_length Z.sub 0%Z ref_indeterminate
           ref_short_batch_class {| _workerCount := 4 |}
           [ref_S; append_row ref_S ref_e] ref_e
           [] [evaluated_batch [ref_S; append_row ref_S ref_e]] _
           [2]%Z [4]%Z).
  - repeat constructor.
  - reflexivity.
  - reflexivity.
Defined.

Lemma X8_witness :
  op_S_elems_const Z.sub 0%Z ref_indeterminate ref_short_batch_class
    {| _workerCount := 4 |} ref_S [ref_e; [2; 3]%Z] []
  = (Undefined,
     [evaluated ref_S;
      evaluated_batch [append_row ref_S ref_e; append_row ref_S [2; 3]%Z]]).
Proof.
  apply (X8_utilities_for_the_candidates Z.sub 0%Z ref_indeterminate
           ref_short_batch_class {| _workerCount := 4 |}
           ref_S [ref_e; [2; 3]%Z] [] [evaluated ref_S] _ 2%Z [4]%Z).
  - repeat constructor.
  - vm_compute. discriminate.
  - reflexivity.
  - reflexivity.
Defined.

(** With 3000000000 hardware threads the default count does not fit an
    [int]; read back and set again it is resolved to the same count. *)
Lemma X9_witness :
  (1 <= getWorkerCount (construct ref_many_threads None) <= UINT_MAX)%Z
  /\ setWorkerCount ref_many_threads
       (to_int (getWorkerCount (construct ref_many_threads None)))
       (construct ref_many_threads None)
     = construct ref_many_threads None.
Proof.
  apply (X9_worker_count_round_trip ref_many_threads
           (construct ref_many_threads None)
           (constructed_default ref_many_threads)).
  vm_compute. discriminate.
Defined.

Lemma X11_witness :
  exists evaluated_sets,
    Permutation evaluated_sets [ref_S; append_row ref_S ref_e; ref_S3]
    /\ length evaluated_sets = 3
    /\ op_S_multi_const 0%Z ref_schedule ref_recording_class
         {| _workerCount := 4 |} [ref_S; append_row ref_S ref_e; ref_S3] []
       = (Returns [2; 4; 6]%Z, [] ++ map evaluated evaluated_sets).
Proof.
  apply (X11_one_evaluation_per_set 0%Z ref_schedule ref_recording_class
           {| _workerCount := 4 |} sum_of_entries
           [ref_S; append_row ref_S ref_e; ref_S3] []).
  - apply ref_schedule_runs_each_iteration_once.
  - intros this S calls. reflexivity.
Defined.

Lemma X12_witness :
  exists evaluated_sets evaluated_augmented,
    Permutation evaluated_sets [ref_S; append_row ref_S ref_e]
    /\ Permutation evaluated_augmented
         [append_row ref_S ref_e; append_row (append_row ref_S ref_e) ref_e]
    /\ op_S_multi_elem_const Z.sub 0%Z ref_indeterminate ref_recording_class
         {| _workerCount := 4 |} [ref_S; append_row ref_S ref_e] ref_e []
       = (Returns [2; 2]%Z,
          [] ++ map evaluated evaluated_sets
             ++ map evaluated evaluated_augmented).
Proof.
  apply (X12_two_evaluations_per_set Z.sub 0%Z ref_indeterminate ref_schedule
           ref_recording_class {| _workerCount := 4 |} sum_of_entries
           [ref_S; append_row ref_S ref_e] ref_e []).
  - apply ref_schedule_runs_each_iteration_once.
  - intros this S calls. reflexivity.
  - intros this S_multi w. reflexivity.
  - repeat constructor.
Defined.

Lemma X13_witness :
  exists evaluated_augmented,
    Permutation evaluated_augmented
      [append_row ref_S ref_e; append_row ref_S [2; 3]%Z]
    /\ Forall (fun S_elem => S_elem <> ref_S) evaluated_augmented
    /\ op_S_elems_const Z.sub 0%Z ref_indeterminate ref_recording_class
         {| _workerCount := 4 |} ref_S [ref_e; [2; 3]%Z] []
       = (Returns [2; 5]%Z,
          [] ++ evaluated ref_S :: map evaluated evaluated_augmented).
Proof.
  apply (X13_one_evaluation_per_candidate Z.sub 0%Z ref_indeterminate
           ref_schedule ref_recording_class {| _workerCount := 4 |}
           sum_of_entries ref_S [ref_e; [2; 3]%Z] []).
  - apply ref_schedule_runs_each_iteration_once.
  - intros this S calls. reflexivity.
  - intros this S_multi w. reflexivity.
  - repeat constructor.
  - vm_compute. discriminate.
Defined.

(** The exception that leaves the marginal gain is the fragile primitive's,
    on the set or on the augmented set. *)
Lemma X15_witness :
  (cols ref_S <> size ref_e
   /\ thrown 7 = runtime_error (mismatch_message (Z.of_nat (cols ref_S))
                                  (Z.of_nat (size ref_e))))
  \/ exists S' w0,
       (S' = ref_S \/ S' = append_row ref_S ref_e)
       /\ call_S_const (ref_fragile_class left_operand_first)
            {| _workerCount := 4 |} S' w0
          = (Throws (thrown 7), 1).
Proof.
  apply (proj1 (X15_no_exception_of_its_own Z.sub 0%Z
                  ref_indeterminate left_operand_first ref_schedule
                  (ref_fragile_class left_operand_first)
                  {| _workerCount := 4 |} (thrown 7) 0 1)
           ref_S ref_e).
  reflexivity.
Defined.

(** The requirement broken in the batch was broken by the unsafe primitive,
    on one of the two sets. *)
Lemma X16_witness :
  exists S_i w0,
    In S_i [ref_S; append_row ref_S ref_e]
    /\ call_S_const ref_unsafe_class {| _workerCount := 4 |} S_i w0
       = (Undefined, 1).
Proof.
  apply (proj1 (proj2 (X16_within_bounds Z.sub 0%Z ref_indeterminate
                         left_operand_first ref_schedule ref_unsafe_class
                         {| _workerCount := 4 |} 0 1
                         ref_schedule_runs_each_iteration_once))
           [ref_S; append_row ref_S ref_e]).
  reflexivity.
Defined.

(** Two sets of different widths, two utilities. *)
Lemma X3_witness :
  length (map sum_of_entries [ref_S; ref_S3]) = length [ref_S; ref_S3].
Proof.
  apply (proj1 (X3_result_lengths Z.sub 0%Z ref_indeterminate ref_schedule
                  (ref_class left_operand_first) {| _workerCount := 4 |}
                  0 2)
           [ref_S; ref_S3] (map sum_of_entries [ref_S; ref_S3])).
  reflexivity.
Defined.

(** The gains of one candidate with two contents of the unwritten row. *)
Lemma X14_witness :
  op_S_elems_const Z.sub 0%Z ref_indeterminate
    (ref_class left_operand_first) {| _workerCount := 4 |} ref_S [ref_e] 0
  = op_S_elems_const Z.sub 0%Z (fun _ _ => 0%Z)
      (ref_class left_operand_first) {| _workerCount := 4 |} ref_S [ref_e] 0.
Proof.
  apply (proj2 (proj2 (X14_unwritten_never_read Z.sub 0%Z ref_indeterminate
                         (fun _ _ => 0%Z) left_operand_first
                         (ref_class left_operand_first)
                         {| _workerCount := 4 |} 0))
           ref_S [ref_e]).
  unfold UINT_MAX. cbn. lia.
Defined.
